(** * YouTube Hot Finder: the quota-aware collection pipeline of [app.py]

    A shallow embedding of the gateway ([yt_get]), the quota ledger
    ([_quota_units_for], [_record_quota]), the pagination walker
    ([fetch_videos_by_search]), the batch steps ([batched],
    [fetch_video_details], [fetch_channel_subs]), the metric calculator
    ([compute_metrics]), the keyword filter ([contains_keywords]) and the
    run block of the script, followed by the properties proved of them.

    Modelling conventions.
    - A Python [str] is a [string] whose characters are the code points
      0..255 (Latin-1); [lower], [strip] and [in] are Python's on that range.
    - Python [int] is [Z]; Python [float] ([wait_minutes], hours, views per
      hour, timestamps) is an exact rational [Q]: rounding and overflow of
      binary floating point are outside the model.
    - A decoded JSON document is a [json] value (numbers are integers);
      Python's dynamic errors on ill-shaped documents are the exceptions
      [KeyError], [IndexError], [TypeError], [AttributeError].
    - [st.session_state], the network and the wall clock form a [world]
      that every effectful function threads.  The network is a script: the
      list of HTTP responses that successive [requests.get] calls receive.
    - The choices of the select boxes (run mode, form factor) are
      enumerations; [datetime.fromisoformat] and [isoformat] are section
      variables. *)

From Stdlib Require Import ZArith QArith Qround Qminmax Lqa Ascii String List Lia.
From stdpp Require Import base option list strings gmap pretty.

Set Warnings "-register-all".
Open Scope Z_scope.

(** ** Python strings on the Latin-1 range *)

Module PyStr.

Definition code (c : ascii) : N := N_of_ascii c.

(** [str.lower] on one code point: A-Z, and the Latin-1 capitals
    U+00C0..U+00DE except the multiplication sign U+00D7. *)
Definition lower_char (c : ascii) : ascii :=
  let n := code c in
  if ((65 <=? n) && (n <=? 90))%N then ascii_of_N (n + 32)
  else if ((192 <=? n) && (n <=? 222) && negb (n =? 215))%N
       then ascii_of_N (n + 32)
  else c.

Fixpoint lower (s : string) : string :=
  match s with
  | EmptyString => EmptyString
  | String c r => String (lower_char c) (lower r)
  end.

(** [str.isspace] on one code point. *)
Definition is_space (c : ascii) : bool :=
  let n := code c in
  (((9 <=? n) && (n <=? 13)) || ((28 <=? n) && (n <=? 32))
   || (n =? 133) || (n =? 160))%N.

Fixpoint lstrip (s : string) : string :=
  match s with
  | String c r => if is_space c then lstrip r else s
  | EmptyString => EmptyString
  end.

(** [rstrip] keeps a character when it, or something after it, is not
    white space. *)
Fixpoint rstrip (s : string) : string :=
  match s with
  | EmptyString => EmptyString
  | String c r =>
      match rstrip r with
      | EmptyString => if is_space c then EmptyString else String c EmptyString
      | r' => String c r'
      end
  end.

Definition strip (s : string) : string := rstrip (lstrip s).

Definition nonempty (s : string) : bool :=
  match s with EmptyString => false | _ => true end.

Fixpoint all_space (s : string) : bool :=
  match s with
  | EmptyString => true
  | String c r => is_space c && all_space r
  end.

(** [k in t]: [k] occurs in [t] as a contiguous substring. *)
Fixpoint contains (t k : string) : bool :=
  String.prefix k t
  || match t with
     | EmptyString => false
     | String _ r => contains r k
     end.

(** [s.startswith(p)]. *)
Definition startswith (s p : string) : bool := String.prefix p s.

Fixpoint join (sep : string) (l : list string) : string :=
  match l with
  | [] => EmptyString
  | [x] => x
  | x :: r => x +:+ sep +:+ join sep r
  end.

End PyStr.

(** ** Decoded JSON and the Python operations the script applies to it *)

Inductive json : Type :=
| JNull
| JBool (b : bool)
| JNum (n : Z)
| JStr (s : string)
| JArr (xs : list json)
| JObj (kvs : list (string * json)).

Inductive stop_reason := MissingCredential | ConfigurationError.

(** The exceptions the modelled code can raise.  [RuntimeError] is the
    gateway's fatal error and carries [r.status_code] and [r.text];
    [RequestException] is what [requests.get] raises on a timeout;
    [StopScript] is [st.error(...); st.stop()]. *)
Inductive exn :=
| RuntimeError (status : Z) (text : string)
| KeyError | IndexError | TypeError | AttributeError | ValueError
| ZeroDivisionError
| RequestException
| StopScript (why : stop_reason).

(** Outcome of a computation: a value, a raised exception, or [Starved]
    when the scripted network has no response left for a request. *)
Inductive res (A : Type) :=
| Ret (a : A)
| Raise (e : exn)
| Starved.
Arguments Ret {A} a.
Arguments Raise {A} e.
Arguments Starved {A}.

Definition res_bind {A B} (r : res A) (k : A -> res B) : res B :=
  match r with
  | Ret a => k a
  | Raise e => Raise e
  | Starved => Starved
  end.

Declare Scope res_scope.
Delimit Scope res_scope with res.
Notation "'let?' x := r 'in' k" := (res_bind r (fun x => k))
  (at level 10, x name, r at level 100, k at level 200) : res_scope.
Open Scope res_scope.

Module Py.

Fixpoint assoc (k : string) (kvs : list (string * json)) : option json :=
  match kvs with
  | [] => None
  | (k', v) :: r => if String.eqb k k' then Some v else assoc k r
  end.

(** [bool(j)] *)
Definition truthy (j : json) : bool :=
  match j with
  | JNull => false
  | JBool b => b
  | JNum n => negb (n =? 0)
  | JStr s => PyStr.nonempty s
  | JArr xs => match xs with [] => false | _ => true end
  | JObj kvs => match kvs with [] => false | _ => true end
  end.

(** [j.get(k, d)]: only a dict has [get]. *)
Definition get (j : json) (k : string) (d : json) : res json :=
  match j with
  | JObj kvs => Ret (default d (assoc k kvs))
  | _ => Raise AttributeError
  end.

(** [j[k]] with a string key. *)
Definition item (j : json) (k : string) : res json :=
  match j with
  | JObj kvs =>
      match assoc k kvs with
      | Some v => Ret v
      | None => Raise KeyError
      end
  | _ => Raise TypeError
  end.

(** [j[0]] *)
Definition first (j : json) : res json :=
  match j with
  | JArr (x :: _) => Ret x
  | JArr [] => Raise IndexError
  | JStr (String c _) => Ret (JStr (String c EmptyString))
  | JStr EmptyString => Raise IndexError
  | JObj _ => Raise KeyError
  | _ => Raise TypeError
  end.

(** The elements a [for] loop over [j] visits. *)
Definition iter (j : json) : res (list json) :=
  match j with
  | JArr xs => Ret xs
  | JStr s => Ret (map (fun c => JStr (String c EmptyString)) (list_ascii_of_string s))
  | JObj kvs => Ret (map (fun kv => JStr (fst kv)) kvs)
  | _ => Raise TypeError
  end.

Definition squote : ascii := ascii_of_N 39.
Definition dquote : ascii := ascii_of_N 34.
Definition bslash : ascii := ascii_of_N 92.

Fixpoint has_char (c : ascii) (s : string) : bool :=
  match s with
  | EmptyString => false
  | String d r => Ascii.eqb c d || has_char c r
  end.

Definition hex_digit (n : N) : ascii :=
  if (n <? 10)%N then ascii_of_N (48 + n) else ascii_of_N (87 + n).

(** One character of [repr] of a [str], inside quotes [q]. *)
Definition repr_char (q c : ascii) : string :=
  let n := PyStr.code c in
  if Ascii.eqb c q || Ascii.eqb c bslash then String bslash (String c EmptyString)
  else if (n =? 9)%N then String bslash "t"
  else if (n =? 10)%N then String bslash "n"
  else if (n =? 13)%N then String bslash "r"
  else if ((n <? 32) || ((127 <=? n) && (n <=? 160)) || (n =? 173))%N
       then String bslash (String "x" (String (hex_digit (n / 16))
              (String (hex_digit (n mod 16)) EmptyString)))
  else String c EmptyString.

Fixpoint repr_chars (q : ascii) (s : string) : string :=
  match s with
  | EmptyString => EmptyString
  | String c r => repr_char q c +:+ repr_chars q r
  end.

(** [repr] of a [str]: single quotes unless the text has a single quote
    and no double quote. *)
Definition repr_str (s : string) : string :=
  let q := if has_char squote s && negb (has_char dquote s) then dquote else squote in
  String q (repr_chars q s) +:+ String q EmptyString.

Fixpoint repr (j : json) : string :=
  match j with
  | JNull => "None"
  | JBool true => "True"
  | JBool false => "False"
  | JNum n => pretty n
  | JStr s => repr_str s
  | JArr xs => "[" +:+ PyStr.join ", " (map repr xs) +:+ "]"
  | JObj kvs =>
      "{" +:+ PyStr.join ", "
                (map (fun kv => repr_str (fst kv) +:+ ": " +:+ repr (snd kv)) kvs)
          +:+ "}"
  end.

(** [str(j)] *)
Definition str (j : json) : string :=
  match j with
  | JStr s => s
  | _ => repr j
  end.

End Py.

(** ** The world: session state, scripted network, clock *)

(** One row of the published result table ([results_df]).  The column
    "Uploaded", a [strftime] rendering of the instant in [Uploaded_ts], is
    left out. *)
Record row := {
  Channel : json;
  Video_Title : json;
  Uploaded_ts : Q;
  Views : Z;
  Views_hr : Q;
  Subscribers : Z;
  Views_Subscribers : option Q;
  Duration : string;
  Duration_sec : Z;
  URL : string;
  row_vid : json;
  row_thumb : json
}.

Record request := {
  endpoint : string;
  params : gmap string json
}.

Record response := {
  status_code : Z;
  url : string;
  text : string;
  json_body : option json   (* [None]: [r.json()] raises *)
}.

(** What one [requests.get] meets: a response, or no response within the
    timeout. *)
Inductive net_event := Reply (r : response) | Timeout.

Record world := {
  q_calls : gmap string Z;
  q_units : Z;
  q_log : list (string * Z * string * Q);
  api_waiting : bool;
  api_wait_reason : string;
  results_df : list row;
  payload_cache : list row;
  net : list net_event;        (* responses still to come *)
  sent : list request;         (* every [requests.get] issued, oldest first *)
  calls : list request;        (* every [yt_get] invocation, oldest first *)
  clock : Q                    (* [time.time()], in seconds *)
}.

Definition set_ledger (c : gmap string Z) (u : Z) (l : list (string * Z * string * Q))
    (w : world) : world :=
  {| q_calls := c; q_units := u; q_log := l;
     api_waiting := api_waiting w; api_wait_reason := api_wait_reason w;
     results_df := results_df w; payload_cache := payload_cache w;
     net := net w; sent := sent w; calls := calls w; clock := clock w |}.

Definition set_waiting (b : bool) (reason : string) (t : Q) (w : world) : world :=
  {| q_calls := q_calls w; q_units := q_units w; q_log := q_log w;
     api_waiting := b; api_wait_reason := reason;
     results_df := results_df w; payload_cache := payload_cache w;
     net := net w; sent := sent w; calls := calls w; clock := t |}.

Definition set_results (df cache : list row) (w : world) : world :=
  {| q_calls := q_calls w; q_units := q_units w; q_log := q_log w;
     api_waiting := api_waiting w; api_wait_reason := api_wait_reason w;
     results_df := df; payload_cache := cache;
     net := net w; sent := sent w; calls := calls w; clock := clock w |}.

Definition set_net (n : list net_event) (s c : list request) (w : world) : world :=
  {| q_calls := q_calls w; q_units := q_units w; q_log := q_log w;
     api_waiting := api_waiting w; api_wait_reason := api_wait_reason w;
     results_df := results_df w; payload_cache := payload_cache w;
     net := n; sent := s; calls := c; clock := clock w |}.

(** [time.sleep(d)] *)
Definition sleep (d : Q) (w : world) : world :=
  set_waiting (api_waiting w) (api_wait_reason w) (clock w + d)%Q w.

(** Effectful code: a function of the world that yields an outcome and the
    world it leaves. *)
Definition M (A : Type) : Type := world -> res A * world.

Definition ret {A} (a : A) : M A := fun w => (Ret a, w).
Definition raise {A} (e : exn) : M A := fun w => (Raise e, w).
Definition lift {A} (r : res A) : M A := fun w => (r, w).
Definition modify (f : world -> world) : M unit := fun w => (Ret tt, f w).

Definition bind {A B} (m : M A) (k : A -> M B) : M B :=
  fun w =>
    match m w with
    | (Ret a, w') => k a w'
    | (Raise e, w') => (Raise e, w')
    | (Starved, w') => (Starved, w')
    end.

Notation "x <- m ;; k" := (bind m (fun x => k))
  (at level 100, m at next level, right associativity).
Notation "m ;;; k" := (bind m (fun _ => k))
  (at level 100, right associativity).

(** ** QuotaLedger *)

Definition _quota_units_for (endpoint_name : string) : Z :=
  if PyStr.startswith endpoint_name "search" then 100
  else if PyStr.startswith endpoint_name "videos" then 1
  else if PyStr.startswith endpoint_name "channels" then 1
  else 0.

(** [d[k] += 1] on the counters dict.  The three keys are there from the
    session defaults on (line 81) and nothing removes one. *)
Definition bump (k : string) (c : gmap string Z) : gmap string Z :=
  <[k := c !!! k + 1]> c.

Definition _record_quota (endpoint_name path : string) (w : world) : world :=
  let units := _quota_units_for endpoint_name in
  let c :=
    if PyStr.startswith endpoint_name "search" then bump "search" (q_calls w)
    else if PyStr.startswith endpoint_name "videos" then bump "videos" (q_calls w)
    else if PyStr.startswith endpoint_name "channels" then bump "channels" (q_calls w)
    else q_calls w in
  set_ledger c (q_units w + units)
             (q_log w ++ [(endpoint_name, units, path, clock w)]) w.

(** The session defaults of the script ([st.session_state.setdefault]),
    over a given network script and clock. *)
Definition initial_world (script : list net_event) (now : Q) : world :=
  {| q_calls := <["search" := 0]> (<["videos" := 0]> (<["channels" := 0]> ∅));
     q_units := 0; q_log := [];
     api_waiting := false; api_wait_reason := "";
     results_df := []; payload_cache := [];
     net := script; sent := []; calls := []; clock := now |}.

(** ** Rate-limited gateway: [yt_get] *)

Definition retry_tokens : list string := ["quota"; "daily"; "rate"; "exceed"].

(** The error reason taken from a failed response (lines 154-163). *)
Definition err_reason (r : response) : res json :=
  let body := default (JObj []) (json_body r) in
  let? e := Py.get body "error" (JObj []) in
  let? es := Py.get e "errors" (JArr [JObj []]) in
  let? e0 := Py.first es in
  let? r1 := Py.get e0 "reason" JNull in
  if Py.truthy r1 then Ret r1
  else
    let? e' := Py.get body "error" (JObj []) in
    let? m := Py.get e' "message" (JStr "") in
    if Py.truthy m then Ret m else Ret (JStr (text r)).

Definition Qpos_bool (q : Q) : bool := negb (Qle_bool q 0).

(** The guard of the retry branch (lines 165-170); [tries] already counts
    the failure at hand. *)
Definition retry_guard (status : Z) (reason : json) (wait_minutes : Q)
    (tries max_retries : Z) : bool :=
  ((status =? 403) || (status =? 429))
  && existsb (fun k => PyStr.contains (PyStr.lower (Py.str reason)) k) retry_tokens
  && Qpos_bool wait_minutes
  && (tries <=? max_retries).

(** [int(x)] of a float: truncation towards zero. *)
Definition py_int_of_Q (q : Q) : Z := Z.quot (Qnum q) (Zpos (Qden q)).

(** The blocking wait (lines 171-178): the flag is raised, the reason
    published, [wait_secs] one-second sleeps pass, the flag is lowered. *)
Definition wait_for_quota (endpoint_name : string) (reason : json) (wait_minutes : Q)
    (w : world) : world :=
  let wait_secs := py_int_of_Q (wait_minutes * 60)%Q in
  set_waiting false (endpoint_name +:+ ": " +:+ Py.str reason)
              (clock w + inject_Z (Z.max wait_secs 0))%Q w.

Definition send (rq : request) (rest : list net_event) (w : world) : world :=
  set_net rest (sent w ++ [rq]) (calls w) w.

(** What one pass through the body of the [while True] loop does. *)
Inductive step :=
| Leave (r : res json) (w : world)     (* [return] or [raise] *)
| Again (tries : Z) (w : world).       (* [continue], after the wait *)

(** One iteration (lines 148-181) on the event [ev] that its
    [requests.get] meets; [tries] is the counter before the iteration. *)
Definition yt_get_step (rq : request) (wait_minutes : Q) (max_retries : Z)
    (ev : net_event) (rest : list net_event) (tries : Z) (w : world) : step :=
  let w := send rq rest w in
  match ev with
  | Timeout => Leave (Raise RequestException) w
  | Reply r =>
      if status_code r =? 200 then
        let w := _record_quota (endpoint rq) (url r) w in
        match json_body r with
        | Some j => Leave (Ret j) w
        | None => Leave (Raise ValueError) w
        end
      else
        let tries := tries + 1 in
        match err_reason r with
        | Ret reason =>
            if retry_guard (status_code r) reason wait_minutes tries max_retries
            then Again tries (wait_for_quota (endpoint rq) reason wait_minutes w)
            else Leave (Raise (RuntimeError (status_code r) (text r))) w
        | Raise e => Leave (Raise e) w
        | Starved => Leave Starved w
        end
  end.

(** The [while True] loop of [yt_get], by recursion on the script: each
    iteration takes the next scripted event. *)
Fixpoint yt_get_loop (rq : request) (wait_minutes : Q) (max_retries : Z)
    (script : list net_event) (tries : Z) (w : world) : res json * world :=
  match script with
  | [] => (Starved, w)
  | ev :: rest =>
      match yt_get_step rq wait_minutes max_retries ev rest tries w with
      | Leave r w' => (r, w')
      | Again tries' w' => yt_get_loop rq wait_minutes max_retries rest tries' w'
      end
  end.

Definition yt_get (endpoint_name : string) (ps : gmap string json) (api_key : string)
    (wait_minutes : Q) (max_retries : Z) : M json :=
  fun w =>
    let rq := {| endpoint := endpoint_name; params := <["key" := JStr api_key]> ps |} in
    yt_get_loop rq wait_minutes max_retries (net w) 0
                (set_net (net w) (sent w) (calls w ++ [rq]) w).

(** ** Python dicts and sets with JSON keys *)

Module PyDict.

(** Lists and dicts are unhashable. *)
Definition hashable (k : json) : bool :=
  match k with
  | JArr _ | JObj _ => false
  | _ => true
  end.

Definition key_num (k : json) : option Z :=
  match k with
  | JBool b => Some (if b then 1 else 0)
  | JNum n => Some n
  | _ => None
  end.

(** [a == b] on hashable values ([True == 1], [False == 0]). *)
Definition key_eqb (a b : json) : bool :=
  match a, b with
  | JNull, JNull => true
  | JStr s, JStr t => String.eqb s t
  | _, _ =>
      match key_num a, key_num b with
      | Some x, Some y => x =? y
      | _, _ => false
      end
  end.

(** A dict in insertion order. *)
Definition t (V : Type) := list (json * V).

Fixpoint lookup {V} (k : json) (d : t V) : option V :=
  match d with
  | [] => None
  | (k', v) :: r => if key_eqb k k' then Some v else lookup k r
  end.

Fixpoint store {V} (k : json) (v : V) (d : t V) : t V :=
  match d with
  | [] => [(k, v)]
  | (k', v') :: r => if key_eqb k k' then (k', v) :: r else (k', v') :: store k v r
  end.

(** [d[k] = v] *)
Definition setitem {V} (k : json) (v : V) (d : t V) : res (t V) :=
  if hashable k then Ret (store k v d) else Raise TypeError.

(** [d.get(k, dflt)] *)
Definition get {V} (k : json) (dflt : V) (d : t V) : res V :=
  if hashable k then Ret (default dflt (lookup k d)) else Raise TypeError.

(** [s.add(k)] on a set kept as the list of its members.  Python leaves
    the iteration order of a set open; the list keeps the order of
    insertion. *)
Definition add (k : json) (s : list json) : res (list json) :=
  if hashable k
  then Ret (if existsb (key_eqb k) s then s else s ++ [k])
  else Raise TypeError.

(** [s.update(ks)] *)
Fixpoint update (ks : list json) (s : list json) : res (list json) :=
  match ks with
  | [] => Ret s
  | k :: r => let? s' := add k s in update r s'
  end.

End PyDict.

(** [",".join(batch)]: every element must be a [str]. *)
Fixpoint strs_of (l : list json) : res (list string) :=
  match l with
  | [] => Ret []
  | JStr s :: r => let? t := strs_of r in Ret (s :: t)
  | _ :: _ => Raise TypeError
  end.

Definition join_ids (sep : string) (l : list json) : res string :=
  let? ss := strs_of l in Ret (PyStr.join sep ss).

(** ** [batched] *)

Fixpoint batched_from {A} (n : Z) (xs batch : list A) : list (list A) :=
  match xs with
  | [] => match batch with [] => [] | _ => [batch] end
  | x :: r =>
      let batch := batch ++ [x] in
      if Z.of_nat (length batch) =? n
      then batch :: batched_from n r []
      else batched_from n r batch
  end.

Definition batched {A} (iterable : list A) (n : Z) : list (list A) :=
  batched_from n iterable [].

(** ** Pagination walker: [fetch_videos_by_search] *)

(** The [for item in ...] loop of one page (lines 217-220); the flag tells
    whether the loop left through [return ids]. *)
Fixpoint collect_page (items ids : list json) (max_results : Z)
    : res (bool * list json) :=
  match items with
  | [] => Ret (false, ids)
  | it :: r =>
      let? i := Py.item it "id" in
      let? vid := Py.item i "videoId" in
      let ids := ids ++ [vid] in
      if Z.of_nat (length ids) >=? max_results then Ret (true, ids)
      else collect_page r ids max_results
  end.

Definition effective_order (published_after : json) (order : string) : string :=
  if Py.truthy published_after && negb (String.eqb order "date") then "date" else order.

Definition put_if (k : string) (v : json) (ps : gmap string json) : gmap string json :=
  if Py.truthy v then <[k := v]> ps else ps.

Definition search_params (query channel_id region_code relevance_language
    published_after : json) (order : string) : gmap string json :=
  let ps := <["part" := JStr "snippet"]> (<["type" := JStr "video"]>
            (<["maxResults" := JNum 50]>
            (<["order" := JStr (effective_order published_after order)]> ∅))) in
  put_if "publishedAfter" published_after
    (put_if "relevanceLanguage" relevance_language
      (put_if "regionCode" region_code
        (put_if "channelId" channel_id
          (put_if "q" query ps)))).

(** The [while True] loop (lines 214-222).  Every iteration that goes on
    has taken at least one event off the script, so [fuel] is an upper
    bound on the iterations; [fetch_videos_by_search] supplies one more
    than the script is long. *)
Fixpoint walk_loop (fuel : nat) (api_key : string) (wait_minutes : Q) (max_results : Z)
    (ps : gmap string json) (next_page : json) (ids : list json) : M (list json) :=
  match fuel with
  | O => fun w => (Starved, w)
  | S fuel =>
      let ps := put_if "pageToken" next_page ps in
      data <- yt_get "search" ps api_key wait_minutes 2 ;;
      items <- lift (let? v := Py.get data "items" (JArr []) in Py.iter v) ;;
      r <- lift (collect_page items ids max_results) ;;
      if fst r then ret (snd r)
      else
        next_page <- lift (Py.get data "nextPageToken" JNull) ;;
        if Py.truthy next_page
        then walk_loop fuel api_key wait_minutes max_results ps next_page (snd r)
        else ret (snd r)
  end.

Definition fetch_videos_by_search (api_key : string)
    (query channel_id region_code relevance_language published_after : json)
    (max_results : Z) (order : string) (wait_minutes : Q) : M (list json) :=
  fun w =>
    walk_loop (S (length (net w))) api_key wait_minutes max_results
      (search_params query channel_id region_code relevance_language
                     published_after order)
      JNull [] w.

(** ** Detail and channel batches *)

Definition video_params (batch : string) : gmap string json :=
  <["part" := JStr "snippet,contentDetails,statistics"]> (<["id" := JStr batch]> ∅).

Fixpoint merge_details (items : list json) (details : PyDict.t json)
    : res (PyDict.t json) :=
  match items with
  | [] => Ret details
  | it :: r =>
      let? k := Py.item it "id" in
      let? d := PyDict.setitem k it details in
      merge_details r d
  end.

Fixpoint details_loop (api_key : string) (wait_minutes : Q)
    (batches : list (list json)) (details : PyDict.t json) : M (PyDict.t json) :=
  match batches with
  | [] => ret details
  | batch :: rest =>
      ids <- lift (join_ids "," batch) ;;
      data <- yt_get "videos" (video_params ids) api_key wait_minutes 2 ;;
      items <- lift (let? v := Py.get data "items" (JArr []) in Py.iter v) ;;
      details <- lift (merge_details items details) ;;
      details_loop api_key wait_minutes rest details
  end.

Definition fetch_video_details (api_key : string) (video_ids : list json)
    (wait_minutes : Q) : M (PyDict.t json) :=
  match video_ids with
  | [] => ret []
  | _ => details_loop api_key wait_minutes (batched video_ids 50) []
  end.

(** [int(j)] *)
Module PyInt.

Definition is_digit (c : ascii) : bool :=
  let n := PyStr.code c in ((48 <=? n) && (n <=? 57))%N.

Definition digit (c : ascii) : Z := Z.of_N (PyStr.code c) - 48.

(** Decimal digits, single underscores allowed between two digits. *)
Fixpoint digits (s : string) (acc : Z) (after_digit : bool) : option Z :=
  match s with
  | EmptyString => if after_digit then Some acc else None
  | String c r =>
      if is_digit c then digits r (acc * 10 + digit c) true
      else if Ascii.eqb c "_" && after_digit then digits r acc false
      else None
  end.

Definition of_string (s : string) : res Z :=
  let body := PyStr.strip s in
  let signed :=
    match body with
    | String "-" r => (-1, r)
    | String "+" r => (1, r)
    | _ => (1, body)
    end in
  match digits (snd signed) 0 false with
  | Some n => Ret (fst signed * n)
  | None => Raise ValueError
  end.

Definition of_json (j : json) : res Z :=
  match j with
  | JNum n => Ret n
  | JBool b => Ret (if b then 1 else 0)
  | JStr s => of_string s
  | _ => Raise TypeError
  end.

End PyInt.

Fixpoint subs_merge (items : list json) (subs : PyDict.t Z) : res (PyDict.t Z) :=
  match items with
  | [] => Ret subs
  | it :: r =>
      let? st := Py.item it "statistics" in
      let? c := Py.get st "subscriberCount" (JNum 0) in
      let? n := PyInt.of_json c in
      let? k := Py.item it "id" in
      let? s := PyDict.setitem k n subs in
      subs_merge r s
  end.

Fixpoint subs_loop (api_key : string) (wait_minutes : Q)
    (batches : list (list json)) (subs : PyDict.t Z) : M (PyDict.t Z) :=
  match batches with
  | [] => ret subs
  | batch :: rest =>
      ids <- lift (join_ids "," batch) ;;
      data <- yt_get "channels" (<["part" := JStr "statistics"]> (<["id" := JStr ids]> ∅))
                     api_key wait_minutes 2 ;;
      items <- lift (let? v := Py.get data "items" (JArr []) in Py.iter v) ;;
      subs <- lift (subs_merge items subs) ;;
      subs_loop api_key wait_minutes rest subs
  end.

Definition fetch_channel_subs (api_key : string) (channel_ids : list json)
    (wait_minutes : Q) : M (PyDict.t Z) :=
  match channel_ids with
  | [] => ret []
  | _ => subs_loop api_key wait_minutes (batched channel_ids 50) []
  end.

(** ** Metric calculator *)

Definition Qlt_bool (a b : Q) : bool := negb (Qle_bool b a).

(** [max(a, b)] *)
Definition py_max (a b : Q) : Q := if Qlt_bool a b then b else a.

(** The floor of the elapsed hours, [1e-6]. *)
Definition hours_floor : Q := 1 # 1000000.

Definition hours_since (now published : Q) : Q :=
  py_max ((now - published) / 3600) hours_floor.

(** [a / b] on floats. *)
Definition py_div (a b : Q) : res Q :=
  if Qeq_bool b 0 then Raise ZeroDivisionError else Ret (a / b)%Q.

Definition views_per_hour (views : Z) (hours : Q) : res Q := py_div (inject_Z views) hours.

Definition read_digits_from : string -> Z -> Z * string :=
  fix go (s : string) (acc : Z) : Z * string :=
    match s with
    | String c r =>
        if PyInt.is_digit c then go r (acc * 10 + PyInt.digit c) else (acc, s)
    | EmptyString => (acc, EmptyString)
    end.

(** An optional group [(\d+)X] of the duration pattern at the head of [s]:
    its value times [mult], and what follows it. *)
Definition duration_group (letter : ascii) (mult : Z) (s : string) : Z * string :=
  match s with
  | String c _ =>
      if PyInt.is_digit c then
        match read_digits_from s 0 with
        | (n, String l r) => if Ascii.eqb l letter then (n * mult, r) else (0, s)
        | _ => (0, s)
        end
      else (0, s)
  | EmptyString => (0, s)
  end.

(** [re.fullmatch(r'PT(?:(\d+)H)?(?:(\d+)M)?(?:(\d+)S)?', duration)] *)
Definition iso8601_to_seconds (duration : string) : Z :=
  match duration with
  | String "P" (String "T" s) =>
      let (h, s1) := duration_group "H" 3600 s in
      let (m, s2) := duration_group "M" 60 s1 in
      let (sec, s3) := duration_group "S" 1 s2 in
      match s3 with
      | EmptyString => h + m + sec
      | _ => 0
      end
  | _ => 0
  end.

Fixpoint replace_Z (s : string) : string :=
  match s with
  | EmptyString => EmptyString
  | String c r => if Ascii.eqb c "Z" then "+00:00" +:+ replace_Z r else String c (replace_Z r)
  end.

Record metrics := {
  publishedAt : Q;
  views : Z;
  viewsPerHour : Q;
  durationSec : Z
}.

Section Metrics.

(** [datetime.fromisoformat] as an instant in seconds, or the exception
    it (or the later subtraction from an aware [now]) raises. *)
Variable fromisoformat : string -> res Q.

Definition compute_metrics (detail : json) (now : Q) : res metrics :=
  let? snip := Py.item detail "snippet" in
  let? stats := Py.get detail "statistics" (JObj []) in
  let? content := Py.get detail "contentDetails" (JObj []) in
  let? pa := Py.item snip "publishedAt" in
  let? published_dt :=
    match pa with
    | JStr s => fromisoformat (replace_Z s)
    | _ => Raise AttributeError
    end in
  let hours := hours_since now published_dt in
  let? vc := Py.get stats "viewCount" (JNum 0) in
  let? v := PyInt.of_json vc in
  let? vph := views_per_hour v hours in
  let? d := Py.get content "duration" (JStr "PT0S") in
  let? dur_sec :=
    match d with
    | JStr s => Ret (iso8601_to_seconds s)
    | _ => Raise TypeError
    end in
  Ret {| publishedAt := published_dt; views := v; viewsPerHour := vph;
         durationSec := dur_sec |}.

End Metrics.

Definition pad2 (n : Z) : string :=
  if (0 <=? n) && (n <? 10) then "0" +:+ pretty n else pretty n.

Definition human_duration (seconds : Z) : string :=
  let h := seconds / 3600 in
  let m := (seconds mod 3600) / 60 in
  let s := seconds mod 60 in
  if negb (h =? 0) then pad2 h +:+ ":" +:+ pad2 m +:+ ":" +:+ pad2 s
  else pad2 m +:+ ":" +:+ pad2 s.

(** The three choices of the form-factor select box. *)
Inductive form_factor := Shorts | LongForm | BothForms.

Definition filter_duration_mode (dur_sec : Z) (mode : form_factor) (shorts_sec : Z) : bool :=
  match mode with
  | BothForms => true
  | Shorts => dur_sec <? shorts_sec
  | LongForm => dur_sec >=? shorts_sec
  end.

(** ** Keyword strict filter *)

Definition normalize_text (s : string) : string := PyStr.lower s.

Definition contains_keywords (text : string) (keywords : list string) (mode : string)
    : bool :=
  match keywords with
  | [] => true
  | _ =>
      let t := normalize_text text in
      let ks := map normalize_text
                    (List.filter (fun k => PyStr.nonempty (PyStr.strip k)) keywords) in
      if String.eqb mode "all"
      then forallb (fun k => PyStr.contains t k) ks
      else existsb (fun k => PyStr.contains t k) ks
  end.

(** ** The run block *)

(** The three choices of the run-mode select box. *)
Inductive run_mode := ChannelMode | KeywordMode | BothModes.

Definition uses_channels (m : run_mode) : bool :=
  match m with ChannelMode | BothModes => true | KeywordMode => false end.

Definition uses_keywords (m : run_mode) : bool :=
  match m with KeywordMode | BothModes => true | ChannelMode => false end.

(** The widget values and input-tab results a run reads from
    [st.session_state]; a run writes none of them. *)
Record config := {
  api_key : string;
  mode : run_mode;
  form : form_factor;
  shorts_sec : Z;
  days_back : Z;
  per_channel_max : Z;
  per_keyword_max : Z;
  min_vph : Q;
  wait_minutes : Q;
  ignore_filters : bool;
  target_regions : list string;
  kw_strict_on : bool;
  kw_strict_all : bool;        (* the radio shows the "all" label *)
  effective_keywords : list string;
  effective_lang : string;
  channels_input : string
}.

Definition is_sep (c : ascii) : bool := Ascii.eqb c "," || PyStr.is_space c.

Fixpoint tokens_from (s cur : string) : list string :=
  match s with
  | EmptyString => if PyStr.nonempty cur then [cur] else []
  | String c r =>
      if is_sep c
      then (if PyStr.nonempty cur then cur :: tokens_from r EmptyString
            else tokens_from r EmptyString)
      else tokens_from r (cur +:+ String c EmptyString)
  end.

(** [p.strip() for part in txt.split(",") for p in part.split() if p.strip()] *)
Definition parse_list_field_inner (txt : string) : list string := tokens_from txt EmptyString.

(** [round(x, d)]: to the nearest multiple of [10^-d], ties to even. *)
Definition py_round (x : Q) (d : Z) : Q :=
  let scale := inject_Z (10 ^ d) in
  let y := (x * scale)%Q in
  let f := Qfloor y in
  let frac := (y - inject_Z f)%Q in
  let n := if Qlt_bool frac (1 # 2) then f
           else if Qlt_bool (1 # 2) frac then f + 1
           else if Z.even f then f else f + 1 in
  (inject_Z n / scale)%Q.

(** [k in v] with a string [k]. *)
Definition py_in (k : string) (v : json) : res bool :=
  match v with
  | JObj kvs => Ret (match Py.assoc k kvs with Some _ => true | None => false end)
  | JStr s => Ret (PyStr.contains s k)
  | JArr xs => Ret (existsb (PyDict.key_eqb (JStr k)) xs)
  | _ => Raise TypeError
  end.

Definition newline : string := String (ascii_of_N 10) EmptyString.

Section Run.

Variable fromisoformat : string -> res Q.

(** [datetime.isoformat("T")] of an instant. *)
Variable isoformat : Q -> string.

Variable cfg : config.

Definition channel_query (token : string) : gmap string json :=
  <["part" := JStr "snippet"]> (<["type" := JStr "channel"]>
    (<["q" := JStr token]> (<["maxResults" := JNum 1]> ∅))).

Definition channel_of_items (items : json) : res json :=
  let? ch_id :=
    if Py.truthy items
    then (let? i0 := Py.first items in
          let? sn := Py.item i0 "snippet" in
          Py.get sn "channelId" JNull)
    else Ret JNull in
  if negb (Py.truthy ch_id) && Py.truthy items
  then (let? i0 := Py.first items in
        let? idv := Py.item i0 "id" in
        Py.get idv "channelId" JNull)
  else Ret ch_id.

Fixpoint resolve_channel_ids_from (lst : list string) (out : list json)
    : M (list json) :=
  match lst with
  | [] => ret out
  | token :: rest =>
      if PyStr.startswith token "@" then
        data <- yt_get "search" (channel_query token) (api_key cfg)
                       (wait_minutes cfg) 2 ;;
        items <- lift (Py.get data "items" (JArr [])) ;;
        ch_id <- lift (channel_of_items items) ;;
        resolve_channel_ids_from rest
          (if Py.truthy ch_id then out ++ [ch_id] else out)
      else resolve_channel_ids_from rest (out ++ [JStr token])
  end.

Definition resolve_channel_ids (lst : list string) : M (list json) :=
  resolve_channel_ids_from lst [].

(** The inner [for ch in channels] loop of the channel fan-out. *)
Fixpoint channel_fan (published_after : json) (region : string)
    (channels collected : list json) : M (list json) :=
  match channels with
  | [] => ret collected
  | ch :: rest =>
      ids <- fetch_videos_by_search (api_key cfg) JNull ch (JStr region)
               (JStr (effective_lang cfg)) published_after
               (per_channel_max cfg) "date" (wait_minutes cfg) ;;
      collected <- lift (PyDict.update ids collected) ;;
      modify (sleep (2 # 100)) ;;;
      channel_fan published_after region rest collected
  end.

(** The inner [for kw in base_keywords] loop of the keyword fan-out. *)
Fixpoint keyword_fan (published_after : json) (region : string)
    (kws : list string) (collected : list json) : M (list json) :=
  match kws with
  | [] => ret collected
  | kw :: rest =>
      if negb (PyStr.nonempty kw)
      then keyword_fan published_after region rest collected
      else
        ids <- fetch_videos_by_search (api_key cfg) (JStr kw) JNull (JStr region)
                 (JStr (effective_lang cfg)) published_after
                 (per_keyword_max cfg) "viewCount" (wait_minutes cfg) ;;
        collected <- lift (PyDict.update ids collected) ;;
        modify (sleep (2 # 100)) ;;;
        keyword_fan published_after region rest collected
  end.

(** An outer [for region in target_regions] loop around [inner]. *)
Fixpoint over_regions (inner : string -> list json -> M (list json))
    (regions : list string) (collected : list json) : M (list json) :=
  match regions with
  | [] => ret collected
  | region :: rest =>
      collected <- inner region collected ;;
      over_regions inner rest collected
  end.

(** [{v["snippet"]["channelId"] for v in details.values() if "snippet" in v}] *)
Fixpoint channel_ids_of (details : PyDict.t json) (acc : list json)
    : res (list json) :=
  match details with
  | [] => Ret acc
  | (_, v) :: rest =>
      let? has := py_in "snippet" v in
      if has then
        let? sn := Py.item v "snippet" in
        let? c := Py.item sn "channelId" in
        let? acc := PyDict.add c acc in
        channel_ids_of rest acc
      else channel_ids_of rest acc
  end.

Definition strict_mode_key : string := if kw_strict_all cfg then "all" else "any".

Definition thumb_of (snip : json) : res json :=
  let? th := Py.get snip "thumbnails" (JObj []) in
  let? m := Py.get th "medium" JNull in
  let? pick :=
    if Py.truthy m then Ret m
    else
      let? h := Py.get th "high" JNull in
      if Py.truthy h then Ret h
      else
        let? d := Py.get th "default" JNull in
        if Py.truthy d then Ret d else Ret (JObj []) in
  Py.get pick "url" (JStr "").

Definition or_empty (j : json) : json := if Py.truthy j then j else JStr "".

(** The text the strict filter searches (lines 741-745). *)
Definition combined_text (detail snip : json) : res string :=
  let? title := Py.get snip "title" JNull in
  let? desc := Py.get snip "description" JNull in
  let? sn := Py.get detail "snippet" (JObj []) in
  let? tags := Py.get sn "tags" (JArr []) in
  let? tag_text :=
    match tags with
    | JArr xs => join_ids " " xs
    | _ => Ret EmptyString
    end in
  Ret (Py.str (or_empty title) +:+ newline +:+ Py.str (or_empty desc)
       +:+ newline +:+ tag_text).

(** One iteration of the row loop (lines 729-770): [None] when a filter
    says [continue]. *)
Definition row_of (now : Q) (subs_map : PyDict.t Z) (all_keywords_norm : list string)
    (vid detail : json) : res (option row) :=
  let? snip := Py.item detail "snippet" in
  let? metrics := compute_metrics fromisoformat detail now in
  let dur_sec := durationSec metrics in
  if negb (ignore_filters cfg)
     && (negb (filter_duration_mode dur_sec (form cfg) (shorts_sec cfg))
         || Qlt_bool (viewsPerHour metrics) (min_vph cfg))
  then Ret None
  else
    let? keep :=
      if kw_strict_on cfg && match all_keywords_norm with [] => false | _ => true end
      then (let? combined := combined_text detail snip in
            Ret (contains_keywords combined all_keywords_norm strict_mode_key))
      else Ret true in
    if negb keep then Ret None
    else
      let? ch_id := Py.item snip "channelId" in
      let? subs := PyDict.get ch_id 0 subs_map in
      let? vs := if 0 <? subs
                 then (let? q := py_div (inject_Z (views metrics)) (inject_Z subs) in
                       Ret (Some q))
                 else Ret None in
      let? thumb := thumb_of snip in
      let? channel_title := Py.item snip "channelTitle" in
      let? title := Py.item snip "title" in
      Ret (Some
        {| Channel := channel_title;
           Video_Title := title;
           Uploaded_ts := publishedAt metrics;
           Views := views metrics;
           Views_hr := py_round (viewsPerHour metrics) 2;
           Subscribers := subs;
           Views_Subscribers := option_map (fun q => py_round q 3) vs;
           Duration := human_duration dur_sec;
           Duration_sec := dur_sec;
           URL := "https://www.youtube.com/watch?v=" +:+ Py.str vid;
           row_vid := vid;
           row_thumb :=
             if Py.truthy thumb then thumb
             else JStr ("https://i.ytimg.com/vi/" +:+ Py.str vid +:+ "/mqdefault.jpg") |}).

Fixpoint rows_of (now : Q) (subs_map : PyDict.t Z) (all_keywords_norm : list string)
    (details : PyDict.t json) (rows : list row) : res (list row) :=
  match details with
  | [] => Ret rows
  | (vid, detail) :: rest =>
      let? r := row_of now subs_map all_keywords_norm vid detail in
      rows_of now subs_map all_keywords_norm rest
              (match r with Some x => rows ++ [x] | None => rows end)
  end.

Definition input_channels : list string :=
  if uses_channels (mode cfg) then parse_list_field_inner (channels_input cfg) else [].

(** Everything between the input check and the assignment to
    [results_df] (lines 672-775): the rows of the new table. *)
Definition collect_rows : M (list row) :=
  fun w0 =>
    let published_after :=
      JStr (isoformat (clock w0 - inject_Z (days_back cfg * 86400))%Q +:+ "Z") in
    (channels <- (if uses_channels (mode cfg)
                  then resolve_channel_ids input_channels else ret []) ;;
     collected <- (if uses_channels (mode cfg)
                   then over_regions (fun region => channel_fan published_after region channels)
                          (target_regions cfg) []
                   else ret []) ;;
     collected <- (if uses_keywords (mode cfg)
                   then over_regions
                          (fun region => keyword_fan published_after region
                                           (effective_keywords cfg))
                          (target_regions cfg) collected
                   else ret collected) ;;
     details <- fetch_video_details (api_key cfg) collected (wait_minutes cfg) ;;
     channel_ids <- lift (channel_ids_of details []) ;;
     subs_map <- (match channel_ids with
                  | [] => ret []
                  | _ => fetch_channel_subs (api_key cfg) channel_ids (wait_minutes cfg)
                  end) ;;
     fun w => lift (rows_of (clock w) subs_map
                            (map normalize_text (effective_keywords cfg))
                            details []) w) w0.

(** The run block (lines 637-777). *)
Definition run : M unit :=
  if negb (PyStr.nonempty (api_key cfg)) then raise (StopScript MissingCredential)
  else if (length input_channels =? 0)%nat && (length (effective_keywords cfg) =? 0)%nat
  then raise (StopScript ConfigurationError)
  else
    rows <- collect_rows ;;
    modify (set_results rows []).

End Run.

(** ** Keyword translation *)

Section Translate.

(** The two translation back ends, tried in this order; [None] when the
    call raises. *)
Variable googletrans : string -> string -> string -> option string.
Variable deep_translator : string -> string -> string -> option string.

Definition translate_keyword_once (src_text src_lang tgt_lang : string) : string :=
  let s := PyStr.strip src_text in
  if negb (PyStr.nonempty s) || String.eqb src_lang tgt_lang then s
  else
    match googletrans s src_lang tgt_lang with
    | Some t => t
    | None =>
        match deep_translator s src_lang tgt_lang with
        | Some t => t
        | None => s
        end
    end.

(** The loop of [translate_keywords_list] (lines 134-137). *)
Fixpoint translate_from (src_lang tgt_lang : string) (ks : list string)
    (seen : gset string) (outs : list string) : list string :=
  match ks with
  | [] => outs
  | k :: r =>
      let v := PyStr.strip (translate_keyword_once k src_lang tgt_lang) in
      if PyStr.nonempty v && negb (bool_decide (PyStr.lower v ∈ seen))
      then translate_from src_lang tgt_lang r ({[PyStr.lower v]} ∪ seen) (outs ++ [v])
      else translate_from src_lang tgt_lang r seen outs
  end.

Definition translate_keywords_list (keywords : list string)
    (src_lang tgt_lang : string) : list string :=
  translate_from src_lang tgt_lang
    (map PyStr.strip
       (List.filter (fun x => PyStr.nonempty x && PyStr.nonempty (PyStr.strip x))
                    keywords))
    ∅ [].

End Translate.

(** ** Quota header *)

Definition DEFAULT_DAILY_QUOTA : Z := 10000.

(** [min(a, b)] *)
Definition py_min (a b : Q) : Q := if Qlt_bool b a then b else a.

(** [left] and [p] of [render_quota_header] (lines 503-505). *)
Definition quota_left (used : Z) : Z := Z.max (DEFAULT_DAILY_QUOTA - used) 0.

Definition quota_progress (used : Z) : Q :=
  py_min (inject_Z used / inject_Z DEFAULT_DAILY_QUOTA) 1.

(** ** Quota estimator *)

(** [math.ceil(x / 50)] *)
Definition ceil50 (x : Z) : Z := Qceiling (inject_Z x / 50).

Record estimate := {
  est_videos : Z;
  search_calls : Z;
  search_units : Z;
  videos_calls : Z;
  videos_units : Z;
  chan_calls_min : Z;
  chan_calls_max : Z;
  total_units_min : Z;
  total_units_max : Z;
  warn : bool
}.

(** Lines 601-615. *)
Definition quota_estimate (cfg : config) : estimate :=
  let ch_list := if uses_channels (mode cfg)
                 then parse_list_field_inner (channels_input cfg) else [] in
  let kw_list := if uses_keywords (mode cfg) then effective_keywords cfg else [] in
  let n_ch := Z.of_nat (length ch_list) in
  let n_kw := Z.of_nat (length kw_list) in
  let est := n_ch * per_channel_max cfg + n_kw * per_keyword_max cfg in
  let s_calls := n_ch * ceil50 (per_channel_max cfg) + n_kw * ceil50 (per_keyword_max cfg) in
  let s_units := s_calls * 100 in
  let v_calls := if est =? 0 then 0 else ceil50 est in
  let v_units := v_calls * 1 in
  let c_min := if est =? 0 then 0 else ceil50 n_ch in
  let c_max := if est =? 0 then 0 else ceil50 est in
  let t_min := s_units + v_units + c_min * 1 in
  let t_max := s_units + v_units + c_max * 1 in
  {| est_videos := est; search_calls := s_calls; search_units := s_units;
     videos_calls := v_calls; videos_units := v_units;
     chan_calls_min := c_min; chan_calls_max := c_max;
     total_units_min := t_min; total_units_max := t_max;
     warn := DEFAULT_DAILY_QUOTA <? t_max |}.

(** ** Transcript helpers *)

(** [round(x)]: the nearest integer, ties to even. *)
Definition round_half_even (x : Q) : Z :=
  let f := Qfloor x in
  let frac := (x - inject_Z f)%Q in
  if Qlt_bool frac (1 # 2) then f
  else if Qlt_bool (1 # 2) frac then f + 1
  else if Z.even f then f else f + 1.

(** The fields [h], [m], [s], [ms] of [_format_srt_time] (lines 427-431). *)
Definition srt_fields (seconds : Q) : Z * Z * Z * Z :=
  let ms := round_half_even ((seconds - inject_Z (py_int_of_Q seconds)) * 1000) in
  let total := py_int_of_Q seconds in
  (total / 3600, (total mod 3600) / 60, total mod 60, ms).

(** [f"{n:03d}"] *)
Definition pad3 (n : Z) : string :=
  if (0 <=? n) && (n <? 10) then "00" +:+ pretty n
  else if (10 <=? n) && (n <? 100) then "0" +:+ pretty n
  else if (-10 <? n) && (n <? 0) then "-0" +:+ pretty (- n)
  else pretty n.

Definition _format_srt_time (seconds : Q) : string :=
  match srt_fields seconds with
  | (h, m, s, ms) => pad2 h +:+ ":" +:+ pad2 m +:+ ":" +:+ pad2 s +:+ "," +:+ pad3 ms
  end.

(** [s.split(c)[0]] *)
Fixpoint before_sep (c : ascii) (s : string) : string :=
  match s with
  | EmptyString => EmptyString
  | String d r => if Ascii.eqb d c then EmptyString else String d (before_sep c r)
  end.

Definition append_missing (extra : string) (langs : list string) : list string :=
  if existsb (String.eqb extra) langs then langs else langs ++ [extra].

(** The languages [fetch_transcript_srt] tries, in order (lines 440-447). *)
Definition transcript_langs (lang_pref : string) : list string :=
  let langs :=
    if PyStr.nonempty lang_pref
    then lang_pref
         :: (if PyStr.contains lang_pref "-" then [before_sep "-" lang_pref] else [])
    else [] in
  append_missing "ko" (append_missing "en" langs).

Fixpoint str_filter (p : ascii -> bool) (s : string) : string :=
  match s with
  | EmptyString => EmptyString
  | String c r => if p c then String c (str_filter p r) else str_filter p r
  end.

(** The characters [_safe_filename] removes (line 475): the angle
    brackets, the colon, the double quote, the two slashes, the bar, the
    question mark and the star. *)
Definition bad_filename_chars : string :=
  "<>:" +:+ String Py.dquote "/\|?*".

Definition _safe_filename (s : string) : string :=
  let out := str_filter (fun c => negb (Py.has_char c bad_filename_chars)) s in
  let t := PyStr.strip (String.substring 0 120 out) in
  if PyStr.nonempty t then t else "video".

(** ** Vocabulary of the properties *)

(** [k] occurs in [t] as a contiguous substring. *)
Definition is_substring (k t : string) : Prop := exists a b, t = a +:+ k +:+ b.

(** The endpoint kinds the ledger counts. *)
Definition endpoint_kinds : list string := ["search"; "videos"; "channels"].

(** The sum over the kinds of count times unit cost. *)
Definition ledger_sum (w : world) : Z :=
  foldr (fun k acc => (q_calls w !!! k) * _quota_units_for k + acc) 0 endpoint_kinds.

(** A sequence of recorded calls, each an endpoint name and a URL. *)
Definition record_all (cs : list (string * string)) (w : world) : world :=
  foldl (fun w c => _record_quota (fst c) (snd c) w) w cs.

Definition is_retry (s : step) : Prop :=
  match s with Again _ _ => True | Leave _ _ => False end.

(** The retry rule in the words of the specification, with [retries] the
    number of retries the call has performed so far. *)
Definition retry_rule_as_stated : Prop :=
  forall rq wait max r rest retries w reason,
    status_code r <> 200 ->
    err_reason r = Ret reason ->
    is_retry (yt_get_step rq wait max (Reply r) rest retries w)
    <-> ((status_code r = 403 \/ status_code r = 429)
         /\ (exists k, k ∈ retry_tokens
                       /\ is_substring k (PyStr.lower (Py.str reason)))
         /\ (0 < wait)%Q
         /\ retries <= max).

(** The video id an item of a search page carries, if it is well formed. *)
Definition item_vid (it : json) : option json :=
  match (let? i := Py.item it "id" in Py.item i "videoId") with
  | Ret v => Some v
  | _ => None
  end.

Definition page_ids (data : json) : list json :=
  match (let? v := Py.get data "items" (JArr []) in Py.iter v) with
  | Ret items => omap item_vid items
  | _ => []
  end.

Definition event_ids (ev : net_event) : list json :=
  match ev with
  | Reply r =>
      if status_code r =? 200
      then match json_body r with Some d => page_ids d | None => [] end
      else []
  | Timeout => []
  end.

(** All video ids the successful responses of a script deliver, in order. *)
Definition script_ids (script : list net_event) : list json :=
  concat (map event_ids script).

(** The walker's bound and uniqueness in the words of the specification. *)
Definition walker_claim_as_stated : Prop :=
  forall key q ch reg lang pa max order wait w ids w',
    fetch_videos_by_search key q ch reg lang pa max order wait w = (Ret ids, w') ->
    Z.of_nat (length ids) <= max /\ NoDup ids.

(** The keyword filter in the words of the specification. *)
Definition keyword_claim_as_stated : Prop :=
  forall text kws,
    (forall mode, contains_keywords text [] mode = true)
    /\ (kws <> [] ->
        (exists k, k ∈ kws
                   /\ ~ is_substring (normalize_text k) (normalize_text text)) ->
        contains_keywords text kws "all" = false)
    /\ (kws <> [] ->
        (contains_keywords text kws "any" = true
         <-> exists k, k ∈ kws
                       /\ is_substring (normalize_text k) (normalize_text text))).

(** A keyword that survives [if k.strip()]. *)
Definition live (k : string) : Prop := PyStr.strip k <> EmptyString.

(** The sizes of the batches of [batched], from the lengths alone. *)
Fixpoint sizes_from (n : Z) (todo cur : nat) : list nat :=
  match todo with
  | O => match cur with O => [] | _ => [cur] end
  | S todo =>
      if Z.of_nat (S cur) =? n then S cur :: sizes_from n todo O
      else sizes_from n todo (S cur)
  end.

Definition ceil_div (a n : Z) : Z := (a + n - 1) / n.

(** A computation [respects] a relation on worlds when every run relates
    the world it starts in to the world it leaves. *)
Definition respects (R : world -> world -> Prop) {A} (m : M A) : Prop :=
  forall w, R w (snd (m w)).

(** The published table and its cache are unchanged. *)
Definition same_results (w w' : world) : Prop :=
  results_df w' = results_df w /\ payload_cache w' = payload_cache w.

(** The ledger invariant. *)
Definition ledger_ok (w : world) : Prop := q_units w = ledger_sum w.

(** A search request with the given [order]. *)
Definition search_with_order (o : string) (rq : request) : Prop :=
  endpoint rq = "search" /\ params rq !! "order" = Some (JStr o).

(** [w'] extends the log of HTTP requests of [w] by requests that satisfy [P]. *)
Definition sends_only (P : request -> Prop) (w w' : world) : Prop :=
  exists new, sent w' = sent w ++ new /\ Forall P new.

(** [w'] extends the log of gateway calls of [w] by [n] calls of kind [kind]. *)
Definition calls_more (kind : string) (n : nat) (w w' : world) : Prop :=
  exists new, calls w' = calls w ++ new
              /\ Forall (fun rq => endpoint rq = kind) new
              /\ length new = n.

(** Sample data: a quota failure, a request, a successful search page. *)
Definition quota_response : response :=
  {| status_code := 403; url := "https://www.googleapis.com/youtube/v3/search";
     text := "quotaExceeded";
     json_body := Some (JObj [("error",
                    JObj [("errors", JArr [JObj [("reason", JStr "quotaExceeded")]])])]) |}.

Definition search_request : request :=
  {| endpoint := "search"; params := <["key" := JStr "k"]> ∅ |}.

Definition quota_failure : net_event := Reply quota_response.

Definition search_item (vid : string) : json :=
  JObj [("id", JObj [("videoId", JStr vid)])].

Definition search_page (vids : list string) (next_page : json) : net_event :=
  Reply {| status_code := 200; url := "https://www.googleapis.com/youtube/v3/search";
           text := "";
           json_body := Some (JObj [("items", JArr (map search_item vids));
                                    ("nextPageToken", next_page)]) |}.



Definition epoch_only (s : string) : res Q :=
  if String.eqb s "1970-01-01T00:00:00+00:00" then Ret 0%Q else Raise ValueError.



(** 120 identifiers. *)
Definition sample_ids : list json := map (fun n => JStr (pretty n)) (seq 0 120).

(** A script of one page that delivers the same identifier twice. *)
Definition repeating_script : list net_event := [search_page ["a"; "a"] JNull].

(** A script of well-formed search pages: every page but the last names a
    next page. *)
Fixpoint paged_script (pages : list (list string)) : list net_event :=
  match pages with
  | [] => []
  | [p] => [search_page p JNull]
  | p :: rest => search_page p (JStr "next") :: paged_script rest
  end.

Definition ok_reply (j : json) : net_event :=
  Reply {| status_code := 200; url := "https://www.googleapis.com/youtube/v3";
           text := ""; json_body := Some j |}.

(** A scenario: one keyword, one region; the search finds one video, whose
    details and channel statistics follow. *)
Definition scenario_detail : json :=
  JObj [("id", JStr "v1");
        ("snippet", JObj [("publishedAt", JStr "1970-01-01T00:00:00Z");
                          ("channelId", JStr "c1"); ("channelTitle", JStr "Chan");
                          ("title", JStr "Cats at home"); ("description", JStr "")]);
        ("statistics", JObj [("viewCount", JStr "7200")]);
        ("contentDetails", JObj [("duration", JStr "PT1M5S")])].

Definition scenario_script : list net_event :=
  [search_page ["v1"] JNull;
   ok_reply (JObj [("items", JArr [scenario_detail])]);
   ok_reply (JObj [("items",
     JArr [JObj [("id", JStr "c1");
                 ("statistics", JObj [("subscriberCount", JStr "100")])]])])].

Definition scenario_config : config :=
  {| api_key := "key"; mode := KeywordMode; form := BothForms; shorts_sec := 60;
     days_back := 180; per_channel_max := 200; per_keyword_max := 200;
     min_vph := 0; wait_minutes := 0; ignore_filters := false;
     target_regions := ["KR"]; kw_strict_on := true; kw_strict_all := false;
     effective_keywords := ["cats"]; effective_lang := "ko";
     channels_input := "" |}.

(** Channel mode, no channel, a keyword left in the input tab. *)
Definition leftover_config : config :=
  {| api_key := "key"; mode := ChannelMode; form := BothForms; shorts_sec := 60;
     days_back := 180; per_channel_max := 200; per_keyword_max := 200;
     min_vph := 0; wait_minutes := 0; ignore_filters := false;
     target_regions := ["KR"]; kw_strict_on := true; kw_strict_all := false;
     effective_keywords := ["cats"]; effective_lang := "ko";
     channels_input := "" |}.

(** A 404 whose error body has an empty [errors] list. *)
Definition odd_404 : response :=
  {| status_code := 404; url := "https://www.googleapis.com/youtube/v3/search";
     text := "not found";
     json_body := Some (JObj [("error", JObj [("errors", JArr [])])]) |}.

(** Every character of [s] satisfies [p]. *)
Fixpoint str_all (p : ascii -> bool) (s : string) : bool :=
  match s with
  | EmptyString => true
  | String c r => p c && str_all p r
  end.

(** A token as [parse_list_field] yields them: not empty, free of commas
    and white space. *)
Definition clean_token (t : string) : bool :=
  PyStr.nonempty t && str_all (fun c => negb (is_sep c)) t.

(** A non-empty run of decimal digits, and the number it writes. *)
Definition digit_string (s : string) : bool :=
  PyStr.nonempty s && str_all PyInt.is_digit s.

Definition dec_value (s : string) : Z :=
  fold_left (fun acc c => acc * 10 + PyInt.digit c) (list_ascii_of_string s) 0.

(** An optional component of an ISO-8601 duration and its value. *)
Definition group_text (o : option string) (letter : string) : string :=
  match o with Some d => d +:+ letter | None => EmptyString end.

Definition group_value (o : option string) : Z :=
  match o with Some d => dec_value d | None => 0 end.

Definition group_ok (o : option string) : bool :=
  match o with Some d => digit_string d | None => true end.

Definition head_ok (s : string) : bool :=
  match s with
  | EmptyString => true
  | String c _ => negb (PyStr.is_space c)
  end.

(** The whole seconds one quota wait lasts: [int(wait_minutes * 60)]
    one-second sleeps. *)
Definition wait_secs (wait_minutes : Q) : Z := Z.max (py_int_of_Q (wait_minutes * 60)) 0.

(** The ledger of [w'] is that of [w]. *)
Definition uncharged (w w' : world) : Prop :=
  q_calls w' = q_calls w /\ q_units w' = q_units w /\ q_log w' = q_log w.

(** The ledger of [w'] is that of [w] with one call of [kind] recorded. *)
Definition charged (kind : string) (w w' : world) : Prop :=
  q_units w' = q_units w + _quota_units_for kind
  /\ exists path, q_log w' = q_log w ++ [(kind, _quota_units_for kind, path, clock w')].

(** Usage and logs only grow from [w] to [w']. *)
Definition grows (w w' : world) : Prop :=
  q_units w <= q_units w'
  /\ q_log w `prefix_of` q_log w'
  /\ sent w `prefix_of` sent w'
  /\ calls w `prefix_of` calls w'.

(** No two keys of the list are equal as dict keys. *)
Fixpoint distinct_keys (ks : list json) : bool :=
  match ks with
  | [] => true
  | k :: r => negb (existsb (PyDict.key_eqb k) r) && distinct_keys r
  end.

(** The record [v] is filed under the identifier it carries. *)
Definition filed_under_id (kv : json * json) : Prop :=
  exists k, Py.item (snd kv) "id" = Ret k /\ PyDict.key_eqb k (fst kv) = true.

(** A channel token that is a handle, to be looked up by a search. *)
Definition is_handle (token : string) : bool := PyStr.startswith token "@".

(** What the row loop guarantees of a row it appends under [cfg]. *)
Definition row_ok (cfg : config) (r : row) : Prop :=
  Duration r = human_duration (Duration_sec r)
  /\ URL r = "https://www.youtube.com/watch?v=" +:+ Py.str (row_vid r)
  /\ (Views_Subscribers r <> None <-> 0 < Subscribers r)
  /\ (ignore_filters cfg = false ->
      filter_duration_mode (Duration_sec r) (form cfg) (shorts_sec cfg) = true
      /\ exists vph, Views_hr r = py_round vph 2 /\ (min_vph cfg <= vph)%Q).

(** A computation [returns_in] a relation on worlds when every run that
    returns relates the world it starts in to the world it leaves. *)
Definition returns_in (R : world -> world -> Prop) {A} (m : M A) : Prop :=
  forall w a w', m w = (Ret a, w') -> R w w'.

(** The quota cost of a list of gateway calls, had each been charged. *)
Definition calls_cost (l : list request) : Z :=
  foldr (fun rq acc => _quota_units_for (endpoint rq) + acc) 0 l.

(** From [w] to [w'] the usage grew by at most the cost of the gateway
    calls made in between. *)
Definition charged_at_most (w w' : world) : Prop :=
  exists new, calls w' = calls w ++ new
              /\ q_units w <= q_units w' <= q_units w + calls_cost new.

(** From [w] to [w'] the usage grew by exactly the cost of the gateway
    calls made in between. *)
Definition charged_exactly (w w' : world) : Prop :=
  exists new, calls w' = calls w ++ new
              /\ q_units w' = q_units w + calls_cost new.

(** * Properties *)

(** Membership in a literal list. *)
Ltac in_list := apply list_elem_of_In; simpl; tauto.

(** ** Strings *)

Lemma prefix_app_iff (k t : string) :
  String.prefix k t = true <-> exists b, t = k +:+ b.
Proof.
  revert t; induction k as [|c k IH]; intros t.
  - split; [intros _; by exists t | by destruct t].
  - destruct t as [|d t]; simpl.
    + split; [done | intros [b Hb]; discriminate].
    + destruct (ascii_dec c d) as [->|Hne].
      * rewrite (IH t). split; intros [b Hb]; exists b.
        -- by rewrite Hb.
        -- by injection Hb.
      * split; [done | intros [b Hb]; injection Hb; congruence].
Qed.

Lemma contains_spec (t k : string) :
  PyStr.contains t k = true <-> is_substring k t.
Proof.
  induction t as [|c t IH].
  - cbn [PyStr.contains]. rewrite orb_false_r, (prefix_app_iff k EmptyString). split.
    + intros [b Hb]. by exists EmptyString, b.
    + intros (a & b & Hab). destruct a; [by exists b | discriminate].
  - cbn [PyStr.contains]. rewrite orb_true_iff, (prefix_app_iff k (String c t)), IH. split.
    + intros [[b Hb] | (a & b & Hab)].
      * by exists EmptyString, b.
      * exists (String c a), b. simpl. by rewrite Hab.
    + intros (a & b & Hab). destruct a as [|d a].
      * left. by exists b.
      * right. exists a, b. simpl in Hab. by injection Hab.
Qed.

Lemma contains_false (t k : string) :
  PyStr.contains t k = false <-> ~ is_substring k t.
Proof.
  rewrite <- contains_spec. by destruct (PyStr.contains t k).
Qed.

Lemma all_space_lstrip (k : string) :
  PyStr.all_space k = true -> PyStr.lstrip k = EmptyString.
Proof.
  induction k as [|c k IH]; simpl; [done |].
  intros [Hc Hk]%andb_true_iff. rewrite Hc. auto.
Qed.

Lemma all_space_strip (k : string) :
  PyStr.all_space k = true -> PyStr.strip k = EmptyString.
Proof.
  intros H. unfold PyStr.strip. by rewrite all_space_lstrip.
Qed.

Lemma rstrip_empty_all_space (k : string) :
  PyStr.rstrip k = EmptyString -> PyStr.all_space k = true.
Proof.
  induction k as [|c k IH]; simpl; [done |].
  destruct (PyStr.rstrip k) eqn:E; [| discriminate].
  destruct (PyStr.is_space c); [auto | discriminate].
Qed.

Lemma lstrip_all_space (k : string) :
  PyStr.all_space (PyStr.lstrip k) = true -> PyStr.all_space k = true.
Proof.
  induction k as [|c k IH]; simpl; [done |].
  destruct (PyStr.is_space c) eqn:E; simpl; [auto | by rewrite E].
Qed.

(** A keyword is dropped by [if k.strip()] exactly when it is made of
    white space only. *)
Lemma strip_empty_iff (k : string) :
  PyStr.strip k = EmptyString <-> PyStr.all_space k = true.
Proof.
  split; [| apply all_space_strip].
  intros H. by apply lstrip_all_space, rstrip_empty_all_space.
Qed.

(** ** Keyword strict filter *)

Lemma live_filter (k : string) (kws : list string) :
  In k (List.filter (fun k => PyStr.nonempty (PyStr.strip k)) kws)
  <-> k ∈ kws /\ live k.
Proof.
  rewrite filter_In, list_elem_of_In. unfold live.
  destruct (PyStr.strip k); simpl; intuition congruence.
Qed.

Lemma contains_keywords_all (text : string) (kws : list string) :
  contains_keywords text kws "all" = true
  <-> forall k, k ∈ kws -> live k ->
                is_substring (normalize_text k) (normalize_text text).
Proof.
  unfold contains_keywords. destruct kws as [|k0 kws'].
  - split; [by intros _ k ?%elem_of_nil | done].
  - set (kws := k0 :: kws'). cbn [String.eqb Ascii.eqb Bool.eqb].
    rewrite forallb_forall. split.
    + intros H k Hk Hl. apply contains_spec, H, in_map, live_filter. auto.
    + intros H k (k' & <- & [Hk Hl]%live_filter)%in_map_iff.
      apply contains_spec. auto.
Qed.

Lemma contains_keywords_any (text : string) (kws : list string) :
  kws <> [] ->
  contains_keywords text kws "any" = true
  <-> exists k, k ∈ kws /\ live k
                /\ is_substring (normalize_text k) (normalize_text text).
Proof.
  unfold contains_keywords. destruct kws as [|k0 kws']; [done | intros _].
  set (kws := k0 :: kws'). cbn [String.eqb Ascii.eqb Bool.eqb].
  rewrite existsb_exists. split.
  - intros (k & (k' & <- & [Hk Hl]%live_filter)%in_map_iff & Hc).
    exists k'. by rewrite <- contains_spec.
  - intros (k & Hk & Hl & Hs). exists (normalize_text k). split.
    + apply in_map, live_filter. auto.
    + by apply contains_spec.
Qed.

(** C6, as amended: an empty keyword list accepts in every mode; in mode
    "all" an item whose normalized text lacks one of the normalized
    non-blank keywords is rejected; in mode "any" a non-empty list accepts
    exactly when a normalized non-blank keyword occurs in the normalized
    text.  Blank keywords (those that strip to the empty string) take no
    part in the match. *)
Theorem C6_contains_keywords_nonblank (text : string) (kws : list string) :
  (forall mode, contains_keywords text [] mode = true)
  /\ (kws <> [] ->
      (exists k, k ∈ kws /\ live k
                 /\ ~ is_substring (normalize_text k) (normalize_text text)) ->
      contains_keywords text kws "all" = false)
  /\ (kws <> [] ->
      (contains_keywords text kws "any" = true
       <-> exists k, k ∈ kws /\ live k
                     /\ is_substring (normalize_text k) (normalize_text text))).
Proof.
  split; [done |]. split.
  - intros _ (k & Hk & Hl & Hn).
    destruct (contains_keywords text kws "all") eqn:E; [| done].
    exfalso. apply Hn. rewrite contains_keywords_all in E. auto.
  - apply contains_keywords_any.
Qed.

(** C6 holds at a concrete text and keyword list. *)
Lemma C6_contains_keywords_nonblank_witness :
  contains_keywords "Hello World" ["WORLD"; "moon"] "all" = false
  /\ contains_keywords "Hello World" ["WORLD"; "moon"] "any" = true.
Proof.
  destruct (C6_contains_keywords_nonblank "Hello World" ["WORLD"; "moon"])
    as (_ & Hall & Hany).
  split.
  - apply Hall; [done |]. exists "moon". split; [in_list |].
    split; [done |]. by apply contains_false.
  - apply Hany; [done |]. exists "WORLD". split; [in_list |].
    split; [done |]. by apply contains_spec.
Defined.

(** C6 as stated fails: a blank keyword that occurs in the text does not
    make mode "any" accept (text "a b", keywords [" "]). *)
Lemma C6_as_stated_fails : ~ keyword_claim_as_stated.
Proof.
  intros H. destruct (H "a b" [" "]) as (_ & _ & Hany).
  assert (contains_keywords "a b" [" "] "any" = true) as E; [| done].
  apply Hany; [done |]. exists " ". split; [in_list |].
  by apply contains_spec.
Qed.

(** C10: on a non-empty keyword list whose elements are all white space,
    mode "any" rejects and mode "all" accepts, whatever the text. *)
Theorem C10_blank_keywords (text : string) (kws : list string) :
  kws <> [] ->
  Forall (fun k => PyStr.all_space k = true) kws ->
  contains_keywords text kws "any" = false
  /\ contains_keywords text kws "all" = true.
Proof.
  intros Hne Hall.
  assert (forall k, k ∈ kws -> ~ live k) as Hdead.
  { intros k Hk Hl. apply Hl, all_space_strip.
    by apply (proj1 (Forall_forall _ _) Hall). }
  split.
  - destruct (contains_keywords text kws "any") eqn:E; [| done].
    apply contains_keywords_any in E as (k & Hk & Hl & _); [| done].
    by destruct (Hdead k).
  - apply contains_keywords_all. intros k Hk Hl. by destruct (Hdead k).
Qed.

(** C10 at the keywords [" "; ""] (blank and empty) and a text that
    contains a space. *)
Lemma C10_blank_keywords_witness :
  contains_keywords "a b" [" "; ""] "any" = false
  /\ contains_keywords "a b" [" "; ""] "all" = true.
Proof.
  apply (C10_blank_keywords "a b" [" "; ""]); [done |].
  repeat constructor.
Defined.

(** ** QuotaLedger *)

Lemma ledger_sum_eq (w : world) :
  ledger_sum w
  = (q_calls w !!! "search") * 100 + (q_calls w !!! "videos")
    + (q_calls w !!! "channels").
Proof.
  unfold ledger_sum, endpoint_kinds. cbn [foldr].
  change (_quota_units_for "search") with 100.
  change (_quota_units_for "videos") with 1.
  change (_quota_units_for "channels") with 1.
  lia.
Qed.

Lemma bump_lookup (k k' : string) (c : gmap string Z) :
  bump k c !!! k' = c !!! k' + (if decide (k' = k) then 1 else 0).
Proof.
  unfold bump. destruct (decide (k' = k)) as [->|Hne].
  - by rewrite lookup_total_insert_eq.
  - rewrite lookup_total_insert_ne by done. lia.
Qed.

(** Recording a call keeps the ledger invariant, whatever the endpoint
    name. *)
Lemma record_quota_ok (e p : string) (w : world) :
  ledger_ok w -> ledger_ok (_record_quota e p w).
Proof.
  unfold ledger_ok. rewrite !ledger_sum_eq.
  unfold _record_quota, _quota_units_for. cbn [q_units q_calls set_ledger].
  intros ->.
  destruct (PyStr.startswith e "search");
    [| destruct (PyStr.startswith e "videos");
       [| destruct (PyStr.startswith e "channels")]];
    rewrite ?bump_lookup; repeat case_decide; try done; lia.
Qed.

Lemma record_all_ok (cs : list (string * string)) (w : world) :
  ledger_ok w -> ledger_ok (record_all cs w).
Proof.
  revert w. induction cs as [|c cs IH]; intros w Hw; [done |].
  apply IH. by apply record_quota_ok.
Qed.

Lemma initial_world_ok (script : list net_event) (now : Q) :
  ledger_ok (initial_world script now).
Proof. unfold ledger_ok. by rewrite ledger_sum_eq. Qed.

(** What recording one call of a counted kind does. *)
Lemma record_quota_kind (k p : string) (w : world) :
  k ∈ endpoint_kinds ->
  (forall k', q_calls (_record_quota k p w) !!! k'
              = q_calls w !!! k' + (if decide (k' = k) then 1 else 0))
  /\ q_units (_record_quota k p w) = q_units w + _quota_units_for k
  /\ q_log (_record_quota k p w)
     = q_log w ++ [(k, _quota_units_for k, p, clock w)].
Proof.
  intros Hk. repeat split.
  intros k'.
  apply list_elem_of_In in Hk. simpl in Hk.
  destruct Hk as [<- | [<- | [<- | []]]]; apply bump_lookup.
Qed.

(** C2: after any sequence of recorded calls the cumulative unit total is
    the sum over the kinds of count times unit cost, the costs being 100
    for search and 1 for videos and for channels; recording one more call
    of a kind adds one to that kind's counter and to no other, adds the
    kind's cost to the total, and appends one log entry. *)
Theorem C2_quota_ledger_invariant (script : list net_event) (now : Q)
    (cs : list (string * string)) :
  let w := record_all cs (initial_world script now) in
  q_units w = ledger_sum w
  /\ _quota_units_for "search" = 100
  /\ _quota_units_for "videos" = 1
  /\ _quota_units_for "channels" = 1
  /\ Forall (fun k => forall path,
       let w' := _record_quota k path w in
       (forall k', q_calls w' !!! k'
                   = q_calls w !!! k' + (if decide (k' = k) then 1 else 0))
       /\ q_units w' = q_units w + _quota_units_for k
       /\ length (q_log w') = S (length (q_log w)))
     endpoint_kinds.
Proof.
  intros w. split; [apply record_all_ok, initial_world_ok |].
  do 3 (split; [done |]).
  apply Forall_forall. intros k Hk path.
  destruct (record_quota_kind k path w Hk) as (Hc & Hu & Hl).
  split; [exact Hc | split; [exact Hu |]].
  rewrite Hl, length_app. simpl. lia.
Qed.

(** ** Frames: what a computation leaves alone *)

Section Frame.

Variable R : world -> world -> Prop.
Hypothesis R_refl : forall w, R w w.
Hypothesis R_trans : forall a b c, R a b -> R b c -> R a c.

Lemma respects_ret {A} (a : A) : respects R (ret a).
Proof. intros w. apply R_refl. Qed.

Lemma respects_raise {A} (e : exn) : respects R (@raise A e).
Proof. intros w. apply R_refl. Qed.

Lemma respects_lift {A} (r : res A) : respects R (lift r).
Proof. intros w. apply R_refl. Qed.

Lemma respects_bind {A B} (m : M A) (k : A -> M B) :
  respects R m -> (forall a, respects R (k a)) -> respects R (bind m k).
Proof.
  intros Hm Hk w. unfold bind. specialize (Hm w).
  destruct (m w) as [[a| |] w']; simpl in *; [| done | done].
  eapply R_trans; [exact Hm | apply Hk].
Qed.

Lemma respects_modify (f : world -> world) :
  (forall w, R w (f w)) -> respects R (modify f).
Proof. intros Hf w. apply Hf. Qed.

(** The walker respects [R] as soon as each of its search requests does. *)
Lemma respects_walk_loop (Pps : gmap string json -> Prop) key wt mx :
  (forall tok ps, Pps ps -> Pps (put_if "pageToken" tok ps)) ->
  (forall ps, Pps ps -> respects R (yt_get "search" ps key wt 2)) ->
  forall fuel ps tok ids,
    Pps ps -> respects R (walk_loop fuel key wt mx ps tok ids).
Proof.
  intros Hput Hget. induction fuel as [|fuel IH]; intros ps tok ids Hps.
  - intros w. apply R_refl.
  - cbn [walk_loop].
    apply respects_bind; [by apply Hget, Hput | intros data].
    apply respects_bind; [apply respects_lift | intros items].
    apply respects_bind; [apply respects_lift | intros [flag out]].
    cbn [fst snd]. destruct flag; [apply respects_ret |].
    apply respects_bind; [apply respects_lift | intros np].
    destruct (Py.truthy np); [| apply respects_ret].
    by apply IH, Hput.
Qed.

Lemma respects_walker (Pps : gmap string json -> Prop) key q ch reg lang pa mx
    order wt :
  (forall tok ps, Pps ps -> Pps (put_if "pageToken" tok ps)) ->
  (forall ps, Pps ps -> respects R (yt_get "search" ps key wt 2)) ->
  Pps (search_params q ch reg lang pa order) ->
  respects R (fetch_videos_by_search key q ch reg lang pa mx order wt).
Proof.
  intros Hput Hget Hps w. unfold fetch_videos_by_search.
  by apply (respects_walk_loop Pps).
Qed.

(** From here on every gateway call and every sleep respects [R]. *)
Hypothesis R_yt_get : forall e ps key wt mx, respects R (yt_get e ps key wt mx).
Hypothesis R_sleep : forall d w, R w (sleep d w).

Lemma respects_fetch_videos key q ch reg lang pa mx order wt :
  respects R (fetch_videos_by_search key q ch reg lang pa mx order wt).
Proof. by apply (respects_walker (fun _ => True)). Qed.

Lemma respects_details_loop key wt batches details :
  respects R (details_loop key wt batches details).
Proof.
  revert details. induction batches as [|b rest IH]; intros details.
  - apply respects_ret.
  - cbn [details_loop].
    apply respects_bind; [apply respects_lift | intros ids].
    apply respects_bind; [apply R_yt_get | intros data].
    apply respects_bind; [apply respects_lift | intros items].
    apply respects_bind; [apply respects_lift | intros d]. apply IH.
Qed.

Lemma respects_fetch_video_details key ids wt :
  respects R (fetch_video_details key ids wt).
Proof.
  unfold fetch_video_details. destruct ids; [apply respects_ret |].
  apply respects_details_loop.
Qed.

Lemma respects_subs_loop key wt batches subs :
  respects R (subs_loop key wt batches subs).
Proof.
  revert subs. induction batches as [|b rest IH]; intros subs.
  - apply respects_ret.
  - cbn [subs_loop].
    apply respects_bind; [apply respects_lift | intros ids].
    apply respects_bind; [apply R_yt_get | intros data].
    apply respects_bind; [apply respects_lift | intros items].
    apply respects_bind; [apply respects_lift | intros d]. apply IH.
Qed.

Lemma respects_fetch_channel_subs key ids wt :
  respects R (fetch_channel_subs key ids wt).
Proof.
  unfold fetch_channel_subs. destruct ids; [apply respects_ret |].
  apply respects_subs_loop.
Qed.

Section RunFrame.

Variable fromisoformat : string -> res Q.
Variable isoformat : Q -> string.
Variable cfg : config.

Lemma respects_resolve lst out :
  respects R (resolve_channel_ids_from cfg lst out).
Proof.
  revert out. induction lst as [|token rest IH]; intros out.
  - apply respects_ret.
  - cbn [resolve_channel_ids_from].
    destruct (PyStr.startswith token "@"); [| apply IH].
    apply respects_bind; [apply R_yt_get | intros data].
    apply respects_bind; [apply respects_lift | intros items].
    apply respects_bind; [apply respects_lift | intros ch]. apply IH.
Qed.

Lemma respects_channel_fan pa region chs collected :
  respects R (channel_fan cfg pa region chs collected).
Proof.
  revert collected. induction chs as [|ch rest IH]; intros collected.
  - apply respects_ret.
  - cbn [channel_fan].
    apply respects_bind; [apply respects_fetch_videos | intros ids].
    apply respects_bind; [apply respects_lift | intros c].
    apply respects_bind; [by apply respects_modify | intros _]. apply IH.
Qed.

Lemma respects_keyword_fan pa region kws collected :
  respects R (keyword_fan cfg pa region kws collected).
Proof.
  revert collected. induction kws as [|kw rest IH]; intros collected.
  - apply respects_ret.
  - cbn [keyword_fan]. destruct (negb (PyStr.nonempty kw)); [apply IH |].
    apply respects_bind; [apply respects_fetch_videos | intros ids].
    apply respects_bind; [apply respects_lift | intros c].
    apply respects_bind; [by apply respects_modify | intros _]. apply IH.
Qed.

Lemma respects_over_regions inner regions collected :
  (forall region c, respects R (inner region c)) ->
  respects R (over_regions inner regions collected).
Proof.
  intros Hin. revert collected.
  induction regions as [|r rest IH]; intros collected.
  - apply respects_ret.
  - cbn [over_regions]. apply respects_bind; [apply Hin | apply IH].
Qed.

Lemma respects_collect_rows :
  respects R (collect_rows fromisoformat isoformat cfg).
Proof.
  intros w0. unfold collect_rows.
  set (pa := JStr _).
  apply respects_bind.
  { destruct (uses_channels (mode cfg)); [apply respects_resolve | apply respects_ret]. }
  intros channels. apply respects_bind.
  { destruct (uses_channels (mode cfg)); [| apply respects_ret].
    apply respects_over_regions. intros. apply respects_channel_fan. }
  intros collected. apply respects_bind.
  { destruct (uses_keywords (mode cfg)); [| apply respects_ret].
    apply respects_over_regions. intros. apply respects_keyword_fan. }
  intros collected'. apply respects_bind;
    [apply respects_fetch_video_details | intros details].
  apply respects_bind; [apply respects_lift | intros chans].
  apply respects_bind.
  { destruct chans; [apply respects_ret | apply respects_fetch_channel_subs]. }
  intros subs w. apply R_refl.
Qed.

End RunFrame.

End Frame.

(** ** Gateway *)

Lemma Qpos_bool_iff (q : Q) : Qpos_bool q = true <-> (0 < q)%Q.
Proof.
  unfold Qpos_bool. rewrite negb_true_iff. split.
  - intros H. apply Qnot_le_lt. intros Hle.
    apply Qle_bool_iff in Hle. congruence.
  - intros H. destruct (Qle_bool q 0) eqn:E; [| done].
    apply Qle_bool_iff in E. by apply Qlt_not_le in H.
Qed.

Lemma retry_guard_iff (status : Z) (reason : json) (wait : Q) (tries max : Z) :
  retry_guard status reason wait tries max = true
  <-> (status = 403 \/ status = 429)
      /\ (exists k, k ∈ retry_tokens
                    /\ is_substring k (PyStr.lower (Py.str reason)))
      /\ (0 < wait)%Q
      /\ tries <= max.
Proof.
  unfold retry_guard.
  rewrite !andb_true_iff, orb_true_iff, !Z.eqb_eq, Z.leb_le, Qpos_bool_iff,
    existsb_exists.
  assert ((exists k, In k retry_tokens
                     /\ PyStr.contains (PyStr.lower (Py.str reason)) k = true)
          <-> (exists k, k ∈ retry_tokens
                         /\ is_substring k (PyStr.lower (Py.str reason)))) as ->.
  { split; intros (k & Hk & Hc); exists k;
      (split; [by apply list_elem_of_In | by apply contains_spec]). }
  tauto.
Qed.

(** What an iteration that meets a failed response with an extractable
    reason does: it goes round again exactly when the guard holds, and
    raises the gateway's fatal error otherwise. *)
Lemma yt_get_step_failed rq wait max r rest tries w reason :
  status_code r <> 200 ->
  err_reason r = Ret reason ->
  yt_get_step rq wait max (Reply r) rest tries w
  = if retry_guard (status_code r) reason wait (tries + 1) max
    then Again (tries + 1) (wait_for_quota (endpoint rq) reason wait (send rq rest w))
    else Leave (Raise (RuntimeError (status_code r) (text r))) (send rq rest w).
Proof.
  intros Hs Hr. unfold yt_get_step.
  destruct (status_code r =? 200) eqn:E; [by apply Z.eqb_eq in E |].
  by rewrite Hr.
Qed.

(** C1, as amended: a failed request whose error reason can be extracted
    is retried if and only if the status is 403 or 429, the reason contains
    (case-insensitively) one of "quota", "daily", "rate", "exceed",
    waitMinutes > 0, and fewer than maxRetries retries have been performed
    so far ([tries] counts them).  Every other such failure, in
    particular every status 404, raises the fatal error that carries the
    status code and the raw body, and sends nothing more. *)
Theorem C1_gateway_retry_rule rq wait max r rest tries w reason :
  status_code r <> 200 ->
  err_reason r = Ret reason ->
  let qualifies :=
    (status_code r = 403 \/ status_code r = 429)
    /\ (exists k, k ∈ retry_tokens
                  /\ is_substring k (PyStr.lower (Py.str reason)))
    /\ (0 < wait)%Q
    /\ tries < max in
  let fatal :=
    Leave (Raise (RuntimeError (status_code r) (text r))) (send rq rest w) in
  (is_retry (yt_get_step rq wait max (Reply r) rest tries w) <-> qualifies)
  /\ (qualifies ->
      yt_get_step rq wait max (Reply r) rest tries w
      = Again (tries + 1)
              (wait_for_quota (endpoint rq) reason wait (send rq rest w)))
  /\ (~ qualifies -> yt_get_step rq wait max (Reply r) rest tries w = fatal)
  /\ (status_code r = 404 ->
      yt_get_step rq wait max (Reply r) rest tries w = fatal).
Proof.
  intros Hs Hr qualifies fatal.
  rewrite (yt_get_step_failed _ _ _ _ _ _ _ _ Hs Hr).
  assert (retry_guard (status_code r) reason wait (tries + 1) max = true
          <-> qualifies) as Hg.
  { rewrite retry_guard_iff. unfold qualifies.
    assert (tries + 1 <= max <-> tries < max) as -> by lia. tauto. }
  destruct (retry_guard (status_code r) reason wait (tries + 1) max).
  - assert qualifies as Hq by by apply Hg.
    split; [by split |]. split; [done |]. split; [done |].
    intros H404. destruct Hq as ([? | ?] & _); lia.
  - assert (~ qualifies) as Hq by (intros Hq; by apply Hg in Hq).
    split; [by split |]. by repeat split.
Qed.

(** C1 at a 403 "quotaExceeded" response, one minute of wait, the default
    two retries and one retry already performed: the call is retried. *)
Lemma C1_gateway_retry_rule_witness :
  is_retry (yt_get_step search_request 1 2 (Reply quota_response) [] 1
                        (initial_world [] 0)).
Proof.
  assert (status_code quota_response <> 200) as Hs by done.
  assert (err_reason quota_response = Ret (JStr "quotaExceeded")) as Hr by done.
  apply (C1_gateway_retry_rule search_request 1 2 quota_response [] 1
           (initial_world [] 0) _ Hs Hr).
  split; [by left |]. split.
  - exists "quota". split; [in_list |]. by apply contains_spec.
  - split; [done | lia].
Defined.

(** C1 as stated fails: with maxRetries = 2 and two retries performed, a
    third 403 "quotaExceeded" meets every stated condition (2 is at most 2)
    and yet is not retried. *)
Lemma C1_as_stated_fails : ~ retry_rule_as_stated.
Proof.
  intros H.
  assert (is_retry (yt_get_step search_request 1 2 (Reply quota_response) [] 2
                                (initial_world [] 0))) as E; [| exact E].
  apply (H search_request 1%Q 2 quota_response [] 2 (initial_world [] 0)
           (JStr "quotaExceeded")); [done | done |].
  split; [by left |]. split.
  - exists "quota". split; [in_list |]. by apply contains_spec.
  - split; [done | lia].
Qed.

(** What one iteration leaves in the world: the request has been sent, the
    script has advanced by one event, and on top of that the ledger has
    recorded the call (status 200) or the wait has passed (retry). *)
Lemma yt_get_step_inv rq wt mx ev rest tries w :
  match yt_get_step rq wt mx ev rest tries w with
  | Again t w' =>
      t = tries + 1 /\ t <= mx
      /\ exists reason, w' = wait_for_quota (endpoint rq) reason wt (send rq rest w)
  | Leave r w' =>
      (w' = send rq rest w /\ forall d, r <> Ret d)
      \/ exists r0, ev = Reply r0 /\ status_code r0 = 200
                    /\ w' = _record_quota (endpoint rq) (url r0) (send rq rest w)
                    /\ forall d, r = Ret d -> json_body r0 = Some d
  end.
Proof.
  unfold yt_get_step. destruct ev as [r0|]; [| by left].
  destruct (status_code r0 =? 200) eqn:E.
  - apply Z.eqb_eq in E.
    destruct (json_body r0) as [j|] eqn:Hb; right; exists r0;
      repeat split; try done; intros; congruence.
  - destruct (err_reason r0) as [reason| |]; [| by left | by left].
    destruct (retry_guard _ _ _ _ _) eqn:G; [| by left].
    apply retry_guard_iff in G as (_ & _ & _ & G). eauto.
Qed.

Section GatewayFrame.

Variable R : world -> world -> Prop.
Hypothesis R_refl : forall w, R w w.
Hypothesis R_trans : forall a b c, R a b -> R b c -> R a c.

Variable rq : request.
Hypothesis R_send : forall rest w, R w (send rq rest w).
Hypothesis R_record : forall p w, R w (_record_quota (endpoint rq) p w).
Hypothesis R_wait :
  forall reason wt w, R w (wait_for_quota (endpoint rq) reason wt w).

Lemma respects_yt_get_step wt mx ev rest tries w :
  match yt_get_step rq wt mx ev rest tries w with
  | Again _ w' | Leave _ w' => R w w'
  end.
Proof.
  pose proof (yt_get_step_inv rq wt mx ev rest tries w) as H.
  destruct (yt_get_step rq wt mx ev rest tries w) as [r w'|t w'].
  - destruct H as [[-> _] | (r0 & _ & _ & -> & _)]; [apply R_send |].
    eapply R_trans; [apply R_send | apply R_record].
  - destruct H as (_ & _ & reason & ->).
    eapply R_trans; [apply R_send | apply R_wait].
Qed.

Lemma respects_yt_get_loop wt mx script :
  forall tries w, R w (snd (yt_get_loop rq wt mx script tries w)).
Proof.
  induction script as [|ev rest IH]; intros tries w; [apply R_refl |].
  cbn [yt_get_loop].
  pose proof (respects_yt_get_step wt mx ev rest tries w) as H.
  destruct (yt_get_step rq wt mx ev rest tries w) as [r w'|t w']; [done |].
  eapply R_trans; [exact H | apply IH].
Qed.

End GatewayFrame.

(** A gateway call leaves the published results alone. *)
Lemma yt_get_same_results e ps key wt mx :
  respects same_results (yt_get e ps key wt mx).
Proof.
  intros w. unfold yt_get.
  match goal with |- same_results _ (snd (yt_get_loop ?rq _ _ _ _ ?w1)) =>
    change (same_results w1 (snd (yt_get_loop rq wt mx (net w1) 0 w1)))
  end.
  apply respects_yt_get_loop; try done.
  intros a b c [? ?] [? ?]. split; congruence.
Qed.

(** A gateway call keeps the ledger invariant. *)
Lemma yt_get_ledger_ok e ps key wt mx :
  respects (fun w w' => ledger_ok w -> ledger_ok w') (yt_get e ps key wt mx).
Proof.
  intros w. unfold yt_get.
  match goal with |- _ -> ledger_ok (snd (yt_get_loop ?rq _ _ _ _ ?w1)) =>
    change (ledger_ok w1 -> ledger_ok (snd (yt_get_loop rq wt mx (net w1) 0 w1)))
  end.
  apply (respects_yt_get_loop (fun w w' => ledger_ok w -> ledger_ok w'));
    try done; [by auto | intros; by apply record_quota_ok].
Qed.

(** A gateway call is logged once, whatever becomes of it. *)
Lemma yt_get_calls e ps key wt mx w :
  calls (snd (yt_get e ps key wt mx w))
  = calls w ++ [{| endpoint := e; params := <["key" := JStr key]> ps |}].
Proof.
  unfold yt_get.
  set (rq := {| endpoint := e; params := _ |}).
  set (w1 := set_net _ _ _ w).
  change (calls w ++ [rq]) with (calls w1).
  apply (respects_yt_get_loop (fun a b => calls b = calls a)); try done.
  intros a b c ? ?. congruence.
Qed.

Lemma sends_only_refl P w : sends_only P w w.
Proof. exists []. by rewrite app_nil_r. Qed.

Lemma sends_only_same P w w' : sent w' = sent w -> sends_only P w w'.
Proof. intros E. exists []. by rewrite app_nil_r. Qed.

Lemma sends_only_trans P a b c :
  sends_only P a b -> sends_only P b c -> sends_only P a c.
Proof.
  intros (n1 & E1 & F1) (n2 & E2 & F2). exists (n1 ++ n2).
  split; [by rewrite E2, E1, app_assoc | by apply Forall_app].
Qed.

(** Every HTTP request of a gateway call is the call's own request. *)
Lemma yt_get_sends e ps key wt mx :
  respects (sends_only (fun rq => rq = {| endpoint := e;
                                          params := <["key" := JStr key]> ps |}))
           (yt_get e ps key wt mx).
Proof.
  intros w. unfold yt_get.
  set (rq := {| endpoint := e; params := _ |}).
  set (w1 := set_net _ _ _ w).
  assert (sends_only (fun x => x = rq) w w1) as H1 by by apply sends_only_same.
  eapply sends_only_trans; [exact H1 |].
  apply respects_yt_get_loop;
    [apply sends_only_refl | apply sends_only_trans | | |].
  - intros rest w'. exists [rq]. split; [done | by constructor].
  - intros p w'. by apply sends_only_same.
  - intros reason wt' w'. by apply sends_only_same.
Qed.

(** A call that returns has consumed a non-empty prefix of the script and
    its last event is the status-200 response whose body it returns. *)
Lemma yt_get_loop_ret rq wt mx script :
  forall tries w data w',
    net w = script ->
    yt_get_loop rq wt mx script tries w = (Ret data, w') ->
    exists pre r0, script = pre ++ Reply r0 :: net w'
                   /\ status_code r0 = 200 /\ json_body r0 = Some data.
Proof.
  induction script as [|ev rest IH]; intros tries w data w' Hnet; [done |].
  cbn [yt_get_loop].
  pose proof (yt_get_step_inv rq wt mx ev rest tries w) as H.
  destruct (yt_get_step rq wt mx ev rest tries w) as [r w1|t w1].
  - intros [= -> ->].
    destruct H as [[_ H] | (r0 & -> & Hs & -> & Hb)]; [by destruct (H data) |].
    exists [], r0. by auto.
  - intros Hloop. destruct H as (_ & _ & reason & ->).
    apply IH in Hloop as (pre & r0 & -> & Hs & Hb); [| done].
    exists (ev :: pre), r0. by auto.
Qed.

Lemma yt_get_ret e ps key wt mx w data w' :
  yt_get e ps key wt mx w = (Ret data, w') ->
  exists pre r0, net w = pre ++ Reply r0 :: net w'
                 /\ status_code r0 = 200 /\ json_body r0 = Some data.
Proof.
  unfold yt_get. intros H. by apply yt_get_loop_ret in H.
Qed.

(** A call sends at most one request more than it may retry. *)
Lemma yt_get_loop_bounded rq wt mx script :
  forall tries w,
    (length (sent (snd (yt_get_loop rq wt mx script tries w)))
     <= length (sent w) + S (Z.to_nat (mx - tries)))%nat.
Proof.
  induction script as [|ev rest IH]; intros tries w; [simpl; lia |].
  cbn [yt_get_loop].
  pose proof (yt_get_step_inv rq wt mx ev rest tries w) as H.
  destruct (yt_get_step rq wt mx ev rest tries w) as [r w1|t w1].
  - destruct H as [[-> _] | (r0 & _ & _ & -> & _)];
      cbn; rewrite length_app; simpl; lia.
  - destruct H as (-> & Hle & reason & ->).
    etrans; [apply IH |]. cbn. rewrite length_app. simpl. lia.
Qed.

(** Retries are bounded: one call issues at most [max_retries + 1]
    requests. *)
Lemma yt_get_bounded e ps key wt mx w :
  (length (sent (snd (yt_get e ps key wt mx w)))
   <= length (sent w) + S (Z.to_nat mx))%nat.
Proof.
  unfold yt_get. etrans; [apply yt_get_loop_bounded |].
  rewrite Z.sub_0_r. simpl. lia.
Qed.

(** ** Pagination walker: the order of its requests *)

Lemma sends_only_impl (P P' : request -> Prop) w w' :
  (forall rq, P rq -> P' rq) -> sends_only P w w' -> sends_only P' w w'.
Proof.
  intros HP (new & E & F). exists new. split; [done |].
  eapply Forall_impl; [exact F | exact HP].
Qed.

Lemma put_if_order k v ps :
  k <> "order" -> put_if k v ps !! "order" = ps !! "order".
Proof.
  intros Hk. unfold put_if. destruct (Py.truthy v); [| done].
  by rewrite lookup_insert_ne.
Qed.

Lemma search_params_order q ch reg lang pa order :
  search_params q ch reg lang pa order !! "order"
  = Some (JStr (effective_order pa order)).
Proof.
  unfold search_params. rewrite !put_if_order by done.
  by rewrite !lookup_insert_ne, lookup_insert_eq by done.
Qed.

(** A walk sends search requests only, all with the effective order. *)
Lemma walker_sends key q ch reg lang pa mx order wt :
  respects (sends_only (search_with_order (effective_order pa order)))
           (fetch_videos_by_search key q ch reg lang pa mx order wt).
Proof.
  apply (respects_walker _ (@sends_only_refl _) (@sends_only_trans _)
           (fun ps => ps !! "order" = Some (JStr (effective_order pa order)))).
  - intros tok ps Hps. by rewrite put_if_order.
  - intros ps Hps w.
    eapply sends_only_impl; [| apply yt_get_sends].
    intros rq ->. split; [done |]. cbn [params]. by rewrite lookup_insert_ne.
  - apply search_params_order.
Qed.

Lemma yt_get_loop_sent_grows rq wt mx script tries w :
  (length (sent w) <= length (sent (snd (yt_get_loop rq wt mx script tries w))))%nat.
Proof.
  apply (respects_yt_get_loop
           (fun a b => (length (sent a) <= length (sent b))%nat)); try done.
  - intros a b c ? ?. lia.
  - intros rest w'. cbn. rewrite length_app. lia.
Qed.

(** On a script that is not exhausted the first request goes out. *)
Lemma yt_get_sends_one e ps key wt mx w :
  net w <> [] ->
  (length (sent w) < length (sent (snd (yt_get e ps key wt mx w))))%nat.
Proof.
  unfold yt_get. set (rq := {| endpoint := e; params := _ |}).
  destruct (net w) as [|ev rest] eqn:E; [done | intros _].
  set (w1 := set_net _ _ _ w). cbn [yt_get_loop].
  pose proof (yt_get_step_inv rq wt mx ev rest 0 w1) as H.
  destruct (yt_get_step rq wt mx ev rest 0 w1) as [r w2|t w2].
  - destruct H as [[-> _] | (r0 & _ & _ & -> & _)];
      cbn; rewrite length_app; simpl; lia.
  - destruct H as (_ & _ & reason & ->).
    eapply Nat.lt_le_trans; [| apply yt_get_loop_sent_grows].
    cbn. rewrite length_app. simpl. lia.
Qed.

Lemma bind_sent_grows {A B} (m : M A) (k : A -> M B) w :
  (forall a, respects (sends_only (fun _ => True)) (k a)) ->
  (length (sent (snd (m w))) <= length (sent (snd (bind m k w))))%nat.
Proof.
  intros Hk. unfold bind. destruct (m w) as [[a| |] w1]; simpl; [| lia | lia].
  destruct (Hk a w1) as (new & -> & _). rewrite length_app. lia.
Qed.

Lemma walker_sends_one key q ch reg lang pa mx order wt w :
  net w <> [] ->
  (length (sent w)
   < length (sent (snd (fetch_videos_by_search key q ch reg lang pa mx order wt w))))%nat.
Proof.
  intros Hnet. unfold fetch_videos_by_search. cbn [walk_loop].
  eapply Nat.lt_le_trans; [by apply yt_get_sends_one |].
  apply bind_sent_grows. intros data.
  assert (forall tok ps ids, respects (sends_only (fun _ => True))
            (walk_loop (length (net w)) key wt mx ps tok ids)) as Hloop.
  { intros tok ps ids.
    apply (respects_walk_loop _ (@sends_only_refl _) (@sends_only_trans _)
             (fun _ => True)); [done | | done].
    intros ps' _ w'. eapply sends_only_impl; [| apply yt_get_sends]. done. }
  apply respects_bind; [apply sends_only_trans
                        | apply respects_lift, sends_only_refl | intros items].
  apply respects_bind; [apply sends_only_trans
                        | apply respects_lift, sends_only_refl | intros [flag out]].
  cbn [fst snd]. destruct flag; [apply respects_ret, sends_only_refl |].
  apply respects_bind; [apply sends_only_trans
                        | apply respects_lift, sends_only_refl | intros np].
  destruct (Py.truthy np); [apply Hloop | apply respects_ret, sends_only_refl].
Qed.

(** C4: every request a walk sends is a search request whose order is
    "date" when publishedAfter is set and the requested order is not
    "date", and the requested order otherwise; on a script that is not
    exhausted the walk sends at least one.  In particular a walk with
    publishedAfter set and order "viewCount" searches with order "date". *)
Theorem C4_walker_order key q ch reg lang pa mx order wt w :
  let used := if Py.truthy pa && negb (String.eqb order "date")
              then "date" else order in
  let w' := snd (fetch_videos_by_search key q ch reg lang pa mx order wt w) in
  (exists new, sent w' = sent w ++ new /\ Forall (search_with_order used) new)
  /\ match net w with
     | [] => True
     | _ :: _ => (length (sent w) < length (sent w'))%nat
     end
  /\ forall c s,
       sends_only (search_with_order "date") w
         (snd (fetch_videos_by_search key q ch reg lang (JStr (String c s)) mx
                 "viewCount" wt w)).
Proof.
  intros used w'. split; [apply walker_sends |]. split.
  - destruct (net w) eqn:E; [done |]. apply walker_sends_one. by rewrite E.
  - intros c s. apply (walker_sends key q ch reg lang (JStr (String c s))).
Qed.

(** ** The run block *)

Lemma same_results_refl w : same_results w w.
Proof. done. Qed.

Lemma same_results_trans a b c :
  same_results a b -> same_results b c -> same_results a c.
Proof. intros [? ?] [? ?]. split; congruence. Qed.

(** Nothing before the final assignment touches the published table. *)
Lemma collect_rows_same_results fromisoformat isoformat cfg :
  respects same_results (collect_rows fromisoformat isoformat cfg).
Proof.
  apply respects_collect_rows;
    [apply same_results_refl | apply same_results_trans
     | apply yt_get_same_results | done].
Qed.

(** C5: a run either completes, and then the published table is the table
    of the new rows and the payload cache is reset, or it ends in an error
    (a gateway-fatal [RuntimeError] or any other), and then the published
    table and the cache are what they were before the run. *)
Theorem C5_run_atomic fromisoformat isoformat cfg w :
  let w' := snd (run fromisoformat isoformat cfg w) in
  match fst (run fromisoformat isoformat cfg w) with
  | Ret _ =>
      exists rows, fst (collect_rows fromisoformat isoformat cfg w) = Ret rows
                   /\ results_df w' = rows /\ payload_cache w' = []
  | _ => results_df w' = results_df w /\ payload_cache w' = payload_cache w
  end.
Proof.
  unfold run.
  destruct (negb (PyStr.nonempty (api_key cfg))); [done |].
  destruct (_ && _); [done |].
  unfold bind.
  pose proof (collect_rows_same_results fromisoformat isoformat cfg w) as H.
  destruct (collect_rows fromisoformat isoformat cfg w) as [[rows| |] w1];
    [| exact H | exact H].
  by exists rows.
Qed.

(** A whole run keeps the ledger invariant, however it ends. *)
Lemma run_ledger_ok fromisoformat isoformat cfg :
  respects (fun w w' => ledger_ok w -> ledger_ok w')
           (run fromisoformat isoformat cfg).
Proof.
  unfold run.
  destruct (negb (PyStr.nonempty (api_key cfg))); [by intros w |].
  destruct (_ && _); [by intros w |].
  apply respects_bind; [by auto | | by intros rows w].
  apply respects_collect_rows;
    [by auto | by auto | apply yt_get_ledger_ok | by intros d w].
Qed.



(** ** Metric calculator *)

Lemma Qlt_bool_iff (a b : Q) : Qlt_bool a b = true <-> (a < b)%Q.
Proof.
  unfold Qlt_bool. rewrite negb_true_iff. split.
  - intros H. apply Qnot_le_lt. intros Hle.
    apply Qle_bool_iff in Hle. congruence.
  - intros H. destruct (Qle_bool b a) eqn:E; [| done].
    apply Qle_bool_iff in E. by apply Qlt_not_le in H.
Qed.

Lemma py_max_cases (a b : Q) :
  ((a < b)%Q /\ py_max a b = b) \/ ((b <= a)%Q /\ py_max a b = a).
Proof.
  unfold py_max. destruct (Qlt_bool a b) eqn:E.
  - left. split; [by apply Qlt_bool_iff | done].
  - right. split; [| done]. apply Qnot_lt_le. intros H.
    apply Qlt_bool_iff in H. congruence.
Qed.


Lemma hours_since_pos (now p : Q) : (0 < hours_since now p)%Q.
Proof.
  unfold hours_since, hours_floor.
  destruct (py_max_cases ((now - p) / 3600) (1 # 1000000)) as [[H ->] | [H ->]].
  - reflexivity.
  - eapply Qlt_le_trans; [| exact H]. reflexivity.
Qed.




(** The division of [compute_metrics] never meets a zero divisor. *)
Lemma views_per_hour_defined (v : Z) (h : Q) :
  (0 < h)%Q -> views_per_hour v h = Ret (inject_Z v / h)%Q.
Proof.
  intros Hh. unfold views_per_hour, py_div.
  destruct (Qeq_bool h 0) eqn:E; [| done].
  apply Qeq_bool_eq in E. lra.
Qed.




(** ** [batched] and the detail batch *)

Lemma batched_from_concat {A} (n : Z) (xs batch : list A) :
  concat (batched_from n xs batch) = batch ++ xs.
Proof.
  revert batch. induction xs as [|x r IH]; intros batch.
  - destruct batch; simpl; by rewrite ?app_nil_r.
  - cbn [batched_from]. destruct (_ =? n).
    + cbn [concat]. rewrite IH. simpl. by rewrite <- app_assoc.
    + rewrite IH. by rewrite <- app_assoc.
Qed.

Lemma batched_from_sizes {A} (n : Z) (xs batch : list A) :
  map length (batched_from n xs batch) = sizes_from n (length xs) (length batch).
Proof.
  revert batch. induction xs as [|x r IH]; intros batch.
  - by destruct batch.
  - cbn [batched_from length sizes_from].
    rewrite length_app, Nat.add_1_r. destruct (_ =? n).
    + cbn [map]. rewrite length_app, Nat.add_1_r. by rewrite IH.
    + rewrite IH. by rewrite length_app, Nat.add_1_r.
Qed.

Lemma sizes_from_bound (n : Z) (todo cur : nat) :
  Z.of_nat cur < n ->
  Forall (fun s => (1 <= s)%nat /\ Z.of_nat s <= n) (sizes_from n todo cur).
Proof.
  revert cur. induction todo as [|todo IH]; intros cur Hcur.
  - destruct cur; constructor; [lia | constructor].
  - cbn [sizes_from]. destruct (Z.of_nat (S cur) =? n) eqn:E.
    + apply Z.eqb_eq in E. constructor; [lia | apply IH; lia].
    + apply Z.eqb_neq in E. apply IH. lia.
Qed.

Lemma ceil_div_zero (n : Z) : 0 < n -> ceil_div 0 n = 0.
Proof. intros Hn. unfold ceil_div. apply Z.div_small. lia. Qed.

Lemma ceil_div_small (a n : Z) : 0 < a <= n -> ceil_div a n = 1.
Proof.
  intros Ha. unfold ceil_div. symmetry.
  apply (Z.div_unique _ _ 1 (a - 1)); lia.
Qed.

Lemma ceil_div_add (a n : Z) : 0 < n -> ceil_div (a + n) n = ceil_div a n + 1.
Proof.
  intros Hn. unfold ceil_div.
  replace (a + n + n - 1) with (a + n - 1 + 1 * n) by lia.
  rewrite Z.div_add by lia. lia.
Qed.

Lemma sizes_from_count (n : Z) (todo cur : nat) :
  0 < n -> Z.of_nat cur < n ->
  Z.of_nat (length (sizes_from n todo cur))
  = ceil_div (Z.of_nat todo + Z.of_nat cur) n.
Proof.
  intros Hn. revert cur. induction todo as [|todo IH]; intros cur Hcur.
  - destruct cur; cbn [sizes_from length].
    + by rewrite ceil_div_zero.
    + rewrite ceil_div_small; lia.
  - cbn [sizes_from]. destruct (Z.of_nat (S cur) =? n) eqn:E.
    + apply Z.eqb_eq in E. cbn [length]. rewrite Nat2Z.inj_succ, IH by lia.
      replace (Z.of_nat (S todo) + Z.of_nat cur)
        with (Z.of_nat todo + Z.of_nat 0 + n) by lia.
      rewrite ceil_div_add by done. lia.
    + apply Z.eqb_neq in E. rewrite IH by lia. f_equal. lia.
Qed.

(** [batched] cuts a list into consecutive chunks of 1 to [n] elements,
    [ceil(len / n)] of them. *)
Lemma batched_spec {A} (xs : list A) (n : Z) :
  0 < n ->
  concat (batched xs n) = xs
  /\ Forall (fun b => (1 <= length b)%nat /\ Z.of_nat (length b) <= n) (batched xs n)
  /\ Z.of_nat (length (batched xs n)) = ceil_div (Z.of_nat (length xs)) n.
Proof.
  intros Hn. unfold batched. split; [apply batched_from_concat |]. split.
  - assert (Forall (fun s => (1 <= s)%nat /\ Z.of_nat s <= n)
                   (map length (batched_from n xs []))) as H.
    { rewrite batched_from_sizes. by apply sizes_from_bound. }
    by apply Forall_map in H.
  - rewrite <- (length_map length), batched_from_sizes, sizes_from_count by done.
    simpl. f_equal. lia.
Qed.

Lemma bind_ret_inv {A B} (m : M A) (k : A -> M B) w b w' :
  bind m k w = (Ret b, w') ->
  exists a w1, m w = (Ret a, w1) /\ k a w1 = (Ret b, w').
Proof.
  unfold bind. destruct (m w) as [[a| |] w1]; [eauto | done | done].
Qed.

Lemma lift_ret_inv {A} (r : res A) w a w' :
  lift r w = (Ret a, w') -> r = Ret a /\ w' = w.
Proof. unfold lift. by intros [= -> ->]. Qed.



(** ** Pagination walker: what it returns *)

Lemma collect_page_spec items :
  forall ids mx flag out,
    collect_page items ids mx = Ret (flag, out) ->
    exists extra,
      out = ids ++ extra
      /\ extra `sublist_of` omap item_vid items
      /\ (Z.of_nat (length ids) < mx ->
          if flag then Z.of_nat (length out) = mx
          else Z.of_nat (length out) < mx).
Proof.
  induction items as [|it r IH]; intros ids mx flag out.
  - intros [= <- <-]. exists []. rewrite app_nil_r. by repeat split.
  - cbn [collect_page].
    destruct (Py.item it "id") as [i| |] eqn:Ei; [| done | done].
    cbn [res_bind].
    destruct (Py.item i "videoId") as [vid| |] eqn:Ev; [| done | done].
    cbn [res_bind].
    assert (omap item_vid (it :: r) = vid :: omap item_vid r) as ->.
    { cbn [omap list_omap]. unfold item_vid at 1. rewrite Ei. cbn [res_bind].
      by rewrite Ev. }
    destruct (Z.of_nat (length (ids ++ [vid])) >=? mx) eqn:G.
    + intros [= <- <-]. exists [vid]. split; [done |]. split.
      * apply sublist_skip, sublist_nil_l.
      * apply Z.geb_le in G. rewrite length_app in *. simpl in *. lia.
    + intros H. apply IH in H as (extra & -> & Hsub & Hlen).
      exists (vid :: extra). rewrite <- app_assoc in Hlen |- *.
      split; [done |]. split.
      * by apply sublist_skip.
      * intros Hl. apply Hlen.
        assert (~ mx <= Z.of_nat (length (ids ++ [vid]))); [| lia].
        rewrite <- Z.geb_le. congruence.
Qed.

Lemma script_ids_app (a b : list net_event) :
  script_ids (a ++ b) = script_ids a ++ script_ids b.
Proof. unfold script_ids. by rewrite map_app, concat_app. Qed.

(** The page a search call returns and the pages still to come are part
    of what the script held. *)
Lemma yt_get_ids e ps key wt mx w data w' :
  yt_get e ps key wt mx w = (Ret data, w') ->
  (page_ids data ++ script_ids (net w')) `sublist_of` script_ids (net w).
Proof.
  intros (pre & r0 & -> & Hs & Hb)%yt_get_ret.
  rewrite script_ids_app. apply sublist_inserts_l.
  unfold script_ids at 2. cbn [map concat event_ids].
  by rewrite Hs, Hb.
Qed.

Lemma yt_get_shrinks e ps key wt mx w data w' :
  yt_get e ps key wt mx w = (Ret data, w') ->
  (length (net w') < length (net w))%nat.
Proof.
  intros (pre & r0 & -> & _)%yt_get_ret. rewrite length_app. simpl. lia.
Qed.

Lemma walk_loop_spec key wt mx :
  forall fuel ps tok ids w out w',
    walk_loop fuel key wt mx ps tok ids w = (Ret out, w') ->
    exists extra,
      out = ids ++ extra
      /\ extra `sublist_of` script_ids (net w)
      /\ (Z.of_nat (length ids) < mx -> Z.of_nat (length out) <= mx).
Proof.
  induction fuel as [|fuel IH]; intros ps tok ids w out w' H; [done |].
  cbn [walk_loop] in H.
  apply bind_ret_inv in H as (data & w1 & Hget & H).
  apply bind_ret_inv in H as (items & w2 & [Hitems ->]%lift_ret_inv & H).
  apply bind_ret_inv in H as ([flag out1] & w3 & [Hcol ->]%lift_ret_inv & H).
  cbn [fst snd] in H.
  apply collect_page_spec in Hcol as (e1 & -> & Hs1 & Hl1).
  assert (page_ids data = omap item_vid items) as Hpage.
  { unfold page_ids. by rewrite Hitems. }
  pose proof (yt_get_ids _ _ _ _ _ _ _ _ Hget) as Hsub.
  rewrite Hpage in Hsub.
  assert (e1 `sublist_of` script_ids (net w)) as Hs1'.
  { etrans; [| exact Hsub]. by apply sublist_inserts_r. }
  destruct flag.
  { injection H as <- <-. exists e1. repeat split; [done |]. intros Hl.
    specialize (Hl1 Hl). simpl in Hl1. lia. }
  apply bind_ret_inv in H as (np & w4 & [Hnp ->]%lift_ret_inv & H).
  destruct (Py.truthy np).
  - apply IH in H as (e2 & -> & Hs2 & Hl2). exists (e1 ++ e2).
    rewrite app_assoc. split; [done |]. split.
    + etrans; [| exact Hsub]. by apply sublist_app.
    + intros Hl. apply Hl2. specialize (Hl1 Hl). simpl in Hl1. lia.
  - injection H as <- <-. exists e1. repeat split; [done |]. intros Hl.
    specialize (Hl1 Hl). simpl in Hl1. lia.
Qed.

Lemma bind_cong {A B} (m : M A) (k k' : A -> M B) w :
  (forall a w1, m w = (Ret a, w1) -> k a w1 = k' a w1) ->
  bind m k w = bind m k' w.
Proof.
  intros H. unfold bind. destruct (m w) as [[a| |] w1]; auto.
Qed.

(** The fuel of [fetch_videos_by_search] is never what stops the loop: any
    fuel above the length of the script gives the same outcome. *)
Lemma walk_loop_fuel key wt mx :
  forall f1 f2 ps tok ids w,
    (length (net w) < f1)%nat -> (length (net w) < f2)%nat ->
    walk_loop f1 key wt mx ps tok ids w = walk_loop f2 key wt mx ps tok ids w.
Proof.
  induction f1 as [|f1 IH]; intros f2 ps tok ids w H1 H2; [lia |].
  destruct f2 as [|f2]; [lia |].
  cbn [walk_loop].
  apply bind_cong. intros data w1 Hget%yt_get_shrinks.
  apply bind_cong. intros items w2 [_ ->]%lift_ret_inv.
  apply bind_cong. intros [flag out] w3 [_ ->]%lift_ret_inv.
  cbn [fst snd]. destruct flag; [done |].
  apply bind_cong. intros np w4 [_ ->]%lift_ret_inv.
  destruct (Py.truthy np); [| done].
  apply IH; lia.
Qed.

(** C3, as amended: a walk with maxResults at least 1 returns at most
    maxResults identifiers; they are, in order, identifiers that the pages
    of the script delivered, so the list repeats an identifier only if the
    pages do (the walker itself removes no duplicate). *)
Theorem C3_walker_bound key q ch reg lang pa mx order wt w ids w' :
  1 <= mx ->
  fetch_videos_by_search key q ch reg lang pa mx order wt w = (Ret ids, w') ->
  Z.of_nat (length ids) <= mx
  /\ ids `sublist_of` script_ids (net w)
  /\ (NoDup (script_ids (net w)) -> NoDup ids).
Proof.
  intros Hmx H. unfold fetch_videos_by_search in H.
  apply walk_loop_spec in H as (extra & -> & Hsub & Hlen).
  simpl in *. split; [apply Hlen; lia |]. split; [done |].
  intros Hnd. by apply (sublist_NoDup _ _ Hnd).
Qed.

(** C3 at a page of three distinct identifiers and maxResults = 2. *)
Lemma C3_walker_bound_witness :
  exists ids,
    fst (fetch_videos_by_search "k" (JStr "cats") JNull JNull JNull JNull 2
           "viewCount" 0 (initial_world [search_page ["a"; "b"; "c"] JNull] 0))
    = Ret ids
    /\ Z.of_nat (length ids) <= 2 /\ NoDup ids.
Proof.
  eexists. split; [reflexivity |].
  destruct (C3_walker_bound "k" (JStr "cats") JNull JNull JNull JNull 2
              "viewCount" 0 (initial_world [search_page ["a"; "b"; "c"] JNull] 0)
              _ _ ltac:(lia) (surjective_pairing _)) as (Hlen & _ & Hnd).
  split; [exact Hlen |]. apply Hnd.
  repeat (constructor; [rewrite ?list_elem_of_In; simpl; intuition congruence |]).
  constructor.
Defined.

(** C3 as stated fails: the walker hands on a repeated identifier that a
    page delivers twice (page ["a"; "a"], maxResults = 10). *)
Lemma C3_as_stated_fails : ~ walker_claim_as_stated.
Proof.
  intros H.
  destruct (H "k" (JStr "cats") JNull JNull JNull JNull 10 "viewCount" 0%Q
              (initial_world repeating_script 0) [JStr "a"; JStr "a"] _
              (surjective_pairing _)) as [_ Hnd].
  apply NoDup_cons in Hnd as [Hin _]. apply Hin. by left.
Qed.


(** ** The walker returns on well-formed pages *)

Lemma bind_ret_eq {A B} (m : M A) (k : A -> M B) w a w1 :
  m w = (Ret a, w1) -> bind m k w = k a w1.
Proof. intros H. unfold bind. by rewrite H. Qed.

Lemma bind_lift {A B} (a : A) (k : A -> M B) w :
  bind (lift (Ret a)) k w = k a w.
Proof. done. Qed.

(** A status-200 response at the head of the script is returned at once. *)
Lemma yt_get_ok e ps key wt mx w r rest data :
  net w = Reply r :: rest ->
  status_code r = 200 ->
  json_body r = Some data ->
  exists w1, yt_get e ps key wt mx w = (Ret data, w1) /\ net w1 = rest.
Proof.
  intros Hnet Hs Hb. unfold yt_get. rewrite Hnet. cbn [yt_get_loop].
  unfold yt_get_step. rewrite Hs, Hb. cbn [Z.eqb Pos.eqb]. eauto.
Qed.

Lemma collect_page_wf (vids : list string) :
  forall ids mx,
    Z.of_nat (length ids) < mx ->
    collect_page (map search_item vids) ids mx
    = Ret (if Z.of_nat (length ids + length vids) >=? mx
           then (true, take (Z.to_nat mx) (ids ++ map JStr vids))
           else (false, ids ++ map JStr vids)).
Proof.
  induction vids as [|v vids IH]; intros ids mx Hlt.
  - cbn [map collect_page length]. rewrite Nat.add_0_r.
    destruct (_ >=? mx) eqn:G; [apply Z.geb_le in G; lia |].
    by rewrite app_nil_r.
  - cbn [map collect_page]. cbn [search_item Py.item Py.assoc String.eqb Ascii.eqb
                                  Bool.eqb res_bind].
    destruct (Z.of_nat (length (ids ++ [JStr v])) >=? mx) eqn:G.
    + apply Z.geb_le in G. rewrite length_app in G. cbn [length] in *.
      destruct (Z.of_nat (length ids + S (length vids)) >=? mx) eqn:G';
        [| assert (~ mx <= Z.of_nat (length ids + S (length vids)))
             by (rewrite <- Z.geb_le; congruence); lia].
      do 2 f_equal.
      rewrite (cons_middle (JStr v) ids (map JStr vids)), app_assoc.
      rewrite take_app_le by (rewrite ?length_app; simpl; lia).
      rewrite take_ge by (rewrite ?length_app; simpl; lia). done.
    + assert (~ mx <= Z.of_nat (length (ids ++ [JStr v]))) as G'
        by (rewrite <- Z.geb_le; congruence).
      rewrite IH by lia.
      rewrite length_app. cbn [length].
      replace (length ids + 1 + length vids)%nat
        with (length ids + S (length vids))%nat by lia.
      by rewrite (cons_middle (JStr v) ids (map JStr vids)), app_assoc.
Qed.

(** On a script of well-formed pages, the last of which names no next
    page, the walk returns the first [max_results] identifiers of the
    pages. *)
Lemma walk_loop_pages key wt mx (pages : list (list string)) :
  forall fuel ps tok ids w,
    pages <> [] ->
    net w = paged_script pages ->
    (length pages <= fuel)%nat ->
    Z.of_nat (length ids) < mx ->
    fst (walk_loop fuel key wt mx ps tok ids w)
    = Ret (take (Z.to_nat mx) (ids ++ map JStr (concat pages))).
Proof.
  induction pages as [|p rest IH]; intros fuel ps tok ids w Hne Hnet Hfuel Hlt;
    [done |].
  destruct fuel as [|fuel]; [simpl in Hfuel; lia |].
  set (next := match rest with [] => JNull | _ => JStr "next" end).
  assert (net w = search_page p next :: paged_script rest) as Hnet'.
  { rewrite Hnet. by destruct rest. }
  cbn [walk_loop].
  destruct (yt_get_ok "search" (put_if "pageToken" tok ps) key wt 2 w _ _ _
              Hnet' eq_refl eq_refl) as (w1 & Hget & Hnet1).
  rewrite (bind_ret_eq _ _ _ _ _ Hget).
  change (let? v := Py.get (JObj [("items", JArr (map search_item p));
                                  ("nextPageToken", next)]) "items" (JArr [])
          in Py.iter v) with (Ret (map search_item p)).
  rewrite bind_lift, collect_page_wf, bind_lift by done.
  change (Py.get (JObj [("items", JArr (map search_item p));
                        ("nextPageToken", next)]) "nextPageToken" JNull)
    with (Ret next).
  cbn [concat]. rewrite map_app, app_assoc.
  destruct (Z.of_nat (length ids + length p) >=? mx) eqn:G; cbn [fst snd].
  - apply Z.geb_le in G. cbn [ret fst].
    by rewrite (take_app_le (ids ++ map JStr p))
      by (rewrite length_app, length_map; lia).
  - assert (~ mx <= Z.of_nat (length ids + length p)) as G'
      by (rewrite <- Z.geb_le; congruence).
    rewrite bind_lift. subst next. destruct rest as [|p' rest'].
    + cbn [Py.truthy ret fst concat map]. rewrite app_nil_r.
      by rewrite take_ge by (rewrite length_app, length_map; lia).
    + cbn [Py.truthy PyStr.nonempty].
      apply IH; [done | done | simpl in *; lia |].
      rewrite length_app, length_map. lia.
Qed.

Lemma walker_returns_on_pages key q ch reg lang pa mx order wt w pages :
  pages <> [] ->
  net w = paged_script pages ->
  1 <= mx ->
  fst (fetch_videos_by_search key q ch reg lang pa mx order wt w)
  = Ret (take (Z.to_nat mx) (map JStr (concat pages))).
Proof.
  intros Hne Hnet Hmx. unfold fetch_videos_by_search.
  apply (walk_loop_pages key wt mx pages); [done | done | | simpl; lia].
  rewrite Hnet. clear. induction pages as [|p [|p' rest] IH]; simpl in *; lia.
Qed.

(** ** Scenarios *)

(** One keyword, one region, publishedAfter set, order "viewCount": the
    search goes out with order "date", one call of each kind is made, 102
    quota units are spent and one row is published. *)
Example run_scenario :
  let out := run epoch_only (fun _ => "2024-01-01T00:00:00") scenario_config
                 (initial_world scenario_script 7200) in
  fst out = Ret tt
  /\ map (fun rq => (endpoint rq, params rq !! "order")) (sent (snd out))
     = [("search", Some (JStr "date")); ("videos", None); ("channels", None)]
  /\ q_units (snd out) = 102
  /\ map (fun r => (row_vid r, Views r, Subscribers r, Duration r))
         (results_df (snd out))
     = [(JStr "v1", 7200, 100, "01:05")].
Proof. vm_compute. by repeat split. Qed.

(** Three quota failures in a row with the default two retries: two
    waits, then the fatal error; the fourth response is never asked for. *)
Example yt_get_gives_up :
  let out := yt_get "search" ∅ "k" 1 2
               (initial_world [quota_failure; quota_failure; quota_failure;
                               search_page [] JNull] 0) in
  fst out = Raise (RuntimeError 403 "quotaExceeded")
  /\ length (sent (snd out)) = 3%nat
  /\ length (net (snd out)) = 1%nat
  /\ (clock (snd out) == 120)%Q.
Proof. vm_compute. by repeat split. Qed.

(** A failed response whose error body has an empty [errors] list: the
    reason extraction itself raises, before the retry test. *)
Example yt_get_odd_error_body :
  err_reason odd_404 = Raise IndexError
  /\ fst (yt_get "search" ∅ "k" 1 2 (initial_world [Reply odd_404] 0))
     = Raise IndexError.
Proof. by vm_compute. Qed.

(** 120 identifiers and a script of three successful responses: three
    "videos" calls, and the step returns. *)
Example details_of_120 :
  let out := fetch_video_details "k" sample_ids 0
               (initial_world [ok_reply (JObj []); ok_reply (JObj []);
                               ok_reply (JObj [])] 0) in
  fst out = Ret []
  /\ map endpoint (calls (snd out)) = ["videos"; "videos"; "videos"]
  /\ q_calls (snd out) !! "videos" = Some 3.
Proof. vm_compute. by repeat split. Qed.

(** Channel mode with no channel but a keyword left over from the input
    tab: the input check passes (the keyword list is not gated by the
    mode), nothing is requested, and an empty table is published. *)
Example run_channel_mode_leftover_keyword :
  input_channels leftover_config = []
  /\ run epoch_only (fun _ => EmptyString) leftover_config
         (initial_world [quota_failure] 0)
     = (Ret tt, initial_world [quota_failure] 0).
Proof. by vm_compute. Qed.

(** With a cap of 0 the test [len(ids) >= max_results] first runs after one
    identifier has been appended: the walk returns that one identifier. *)
Example walker_zero_cap :
  fst (fetch_videos_by_search "k" (JStr "cats") JNull JNull JNull JNull 0
         "viewCount" 0 (initial_world [search_page ["a"; "b"] JNull] 0))
  = Ret [JStr "a"].
Proof. reflexivity. Qed.

(** ** Input fields: [parse_list_field] *)

Lemma append_cons (c : ascii) (s t : string) :
  String c s +:+ t = String c (s +:+ t).
Proof. done. Qed.

Lemma append_empty_r (s : string) : s +:+ EmptyString = s.
Proof. induction s as [|c s IH]; [done |]. by rewrite append_cons, IH. Qed.

Lemma append_assoc (a b c : string) : (a +:+ b) +:+ c = a +:+ (b +:+ c).
Proof. induction a as [|x a IH]; [done |]. by rewrite !append_cons, IH. Qed.

Lemma str_all_app (p : ascii -> bool) (a b : string) :
  str_all p (a +:+ b) = str_all p a && str_all p b.
Proof.
  induction a as [|x a IH]; [done |].
  rewrite append_cons. cbn [str_all]. by rewrite IH, andb_assoc.
Qed.

Lemma tokens_from_clean (s cur : string) :
  str_all (fun c => negb (is_sep c)) cur = true ->
  Forall (fun t => clean_token t = true) (tokens_from s cur).
Proof.
  revert cur. induction s as [|c r IH]; intros cur Hcur; cbn [tokens_from].
  - destruct (PyStr.nonempty cur) eqn:E; [| constructor].
    constructor; [| constructor]. unfold clean_token. by rewrite E, Hcur.
  - destruct (is_sep c) eqn:Ec.
    + destruct (PyStr.nonempty cur) eqn:E; [| by apply IH].
      constructor; [| by apply IH]. unfold clean_token. by rewrite E, Hcur.
    + apply IH. rewrite str_all_app, Hcur. simpl. by rewrite Ec.
Qed.

Lemma tokens_from_app_clean (t rest cur : string) :
  str_all (fun c => negb (is_sep c)) t = true ->
  tokens_from (t +:+ rest) cur = tokens_from rest (cur +:+ t).
Proof.
  revert cur. induction t as [|c t IH]; intros cur Ht.
  - by rewrite append_empty_r.
  - cbn [str_all] in Ht. apply andb_true_iff in Ht as [Hc Ht].
    apply negb_true_iff in Hc.
    rewrite append_cons. cbn [tokens_from].
    rewrite Hc, IH by done. f_equal. by rewrite append_assoc.
Qed.

Lemma parse_join_clean (l : list string) :
  Forall (fun t => clean_token t = true) l ->
  parse_list_field_inner (PyStr.join ", " l) = l.
Proof.
  unfold parse_list_field_inner.
  induction l as [|t l IH]; intros Hl; [done |].
  apply Forall_cons in Hl as [Ht Hl]. specialize (IH Hl).
  unfold clean_token in Ht. apply andb_true_iff in Ht as [Hne Hclean].
  destruct l as [|t' l'].
  - cbn [PyStr.join].
    rewrite <- (append_empty_r t) at 1.
    rewrite tokens_from_app_clean by done.
    change (EmptyString +:+ t) with t. cbn [tokens_from]. by rewrite Hne.
  - cbn [PyStr.join] in *. rewrite tokens_from_app_clean by done.
    change (", " +:+ ?x) with (String "," (String " " x)).
    change (EmptyString +:+ t) with t.
    cbn [tokens_from]. change (is_sep ",") with true. change (is_sep " ") with true.
    rewrite Hne. cbn [PyStr.nonempty]. by rewrite IH.
Qed.

(** X1: every token that [parse_list_field] yields is non-empty and free of
    commas and white space, whatever the text. *)
Theorem X1_parse_list_field_tokens (txt : string) :
  Forall (fun t => clean_token t = true) (parse_list_field_inner txt).
Proof. by apply tokens_from_clean. Qed.

(** X2: a list of clean tokens written out with ", " between them parses
    back to the same list. *)
Theorem X2_parse_list_field_round_trip (l : list string) :
  Forall (fun t => clean_token t = true) l ->
  parse_list_field_inner (PyStr.join ", " l) = l.
Proof. apply parse_join_clean. Qed.

Lemma X2_parse_list_field_round_trip_witness :
  parse_list_field_inner (PyStr.join ", " ["@chan"; "UC123"; "cats"])
  = ["@chan"; "UC123"; "cats"].
Proof.
  apply (X2_parse_list_field_round_trip ["@chan"; "UC123"; "cats"]).
  repeat constructor.
Defined.

(** ** [strip] *)

Lemma lstrip_head_ok (s : string) : head_ok (PyStr.lstrip s) = true.
Proof.
  induction s as [|c s IH]; [done |]. cbn [PyStr.lstrip].
  destruct (PyStr.is_space c) eqn:E; [done |]. simpl. by rewrite E.
Qed.

Lemma lstrip_id (s : string) : head_ok s = true -> PyStr.lstrip s = s.
Proof.
  destruct s as [|c s]; [done |]. simpl. by intros ->%negb_true_iff.
Qed.

Lemma rstrip_head_ok (s : string) : head_ok s = true -> head_ok (PyStr.rstrip s) = true.
Proof.
  destruct s as [|c s]; [done |]. cbn [PyStr.rstrip head_ok].
  intros Hc. destruct (PyStr.rstrip s); [| done].
  destruct (PyStr.is_space c) eqn:E; [done |]. simpl. by rewrite E.
Qed.

Lemma rstrip_rstrip (s : string) : PyStr.rstrip (PyStr.rstrip s) = PyStr.rstrip s.
Proof.
  induction s as [|c s IH]; [done |]. cbn [PyStr.rstrip].
  destruct (PyStr.rstrip s) as [|d r] eqn:E.
  - destruct (PyStr.is_space c) eqn:Ec; [done |]. simpl. by rewrite Ec.
  - cbn [PyStr.rstrip]. cbn [PyStr.rstrip] in IH.
    destruct (PyStr.rstrip r) as [|e r'] eqn:Er.
    + destruct (PyStr.is_space d); [done |]. by injection IH as <-.
    + by rewrite IH.
Qed.

Lemma strip_strip (s : string) : PyStr.strip (PyStr.strip s) = PyStr.strip s.
Proof.
  unfold PyStr.strip.
  rewrite (lstrip_id (PyStr.rstrip (PyStr.lstrip s)))
    by apply rstrip_head_ok, lstrip_head_ok.
  apply rstrip_rstrip.
Qed.

Lemma lstrip_length (s : string) :
  (String.length (PyStr.lstrip s) <= String.length s)%nat.
Proof.
  induction s as [|c s IH]; [done |]. cbn [PyStr.lstrip].
  destruct (PyStr.is_space c); simpl; lia.
Qed.

Lemma rstrip_length (s : string) :
  (String.length (PyStr.rstrip s) <= String.length s)%nat.
Proof.
  induction s as [|c s IH]; [done |]. cbn [PyStr.rstrip].
  destruct (PyStr.rstrip s); [destruct (PyStr.is_space c) |]; simpl in *; lia.
Qed.

Lemma lstrip_all (p : ascii -> bool) (s : string) :
  str_all p s = true -> str_all p (PyStr.lstrip s) = true.
Proof.
  induction s as [|c s IH]; [done |]. cbn [PyStr.lstrip].
  destruct (PyStr.is_space c); [| done].
  cbn [str_all]. intros [_ H]%andb_true_iff. auto.
Qed.

Lemma rstrip_all (p : ascii -> bool) (s : string) :
  str_all p s = true -> str_all p (PyStr.rstrip s) = true.
Proof.
  induction s as [|c s IH]; [done |]. cbn [PyStr.rstrip str_all].
  intros [Hc H]%andb_true_iff. specialize (IH H).
  destruct (PyStr.rstrip s); [destruct (PyStr.is_space c) |]; simpl in *;
    rewrite ?Hc; auto.
Qed.

(** ** [_safe_filename] *)

Lemma str_filter_all (p : ascii -> bool) (s : string) :
  str_all p (str_filter p s) = true.
Proof.
  induction s as [|c s IH]; [done |]. cbn [str_filter].
  destruct (p c) eqn:E; [| done]. simpl. by rewrite E.
Qed.

Lemma substring_prefix_all (p : ascii -> bool) (n : nat) (s : string) :
  str_all p s = true -> str_all p (String.substring 0 n s) = true.
Proof.
  revert s. induction n as [|n IH]; intros s; [by destruct s |].
  destruct s as [|c s]; [done |]. cbn [String.substring str_all].
  intros [-> H]%andb_true_iff. simpl. auto.
Qed.

Lemma substring_prefix_length (n : nat) (s : string) :
  (String.length (String.substring 0 n s) <= n)%nat.
Proof.
  revert s. induction n as [|n IH]; intros s; [by destruct s |].
  destruct s as [|c s]; simpl; [lia |]. specialize (IH s). lia.
Qed.

(** X3: the file name [_safe_filename] returns is never empty, has at most
    120 characters, holds none of the nine forbidden characters and has no
    white space at either end. *)
Theorem X3_safe_filename (s : string) :
  _safe_filename s <> EmptyString
  /\ (String.length (_safe_filename s) <= 120)%nat
  /\ str_all (fun c => negb (Py.has_char c bad_filename_chars)) (_safe_filename s)
     = true
  /\ PyStr.strip (_safe_filename s) = _safe_filename s.
Proof.
  unfold _safe_filename.
  set (p := fun c => negb (Py.has_char c bad_filename_chars)).
  set (cut := String.substring 0 120 (str_filter p s)).
  destruct (PyStr.nonempty (PyStr.strip cut)) eqn:E;
    [| split; [done | split; [simpl; lia | split; by vm_compute]]].
  split; [by destruct (PyStr.strip cut) |]. split.
  { unfold PyStr.strip. etrans; [apply rstrip_length |].
    etrans; [apply lstrip_length |]. apply substring_prefix_length. }
  split; [| apply strip_strip].
  unfold PyStr.strip. apply rstrip_all, lstrip_all, substring_prefix_all.
  apply str_filter_all.
Qed.

(** ** Transcript languages *)

Lemma existsb_eqb_In (x : string) (l : list string) :
  existsb (String.eqb x) l = true <-> x ∈ l.
Proof.
  rewrite existsb_exists, list_elem_of_In. split.
  - by intros (y & Hy & ->%String.eqb_eq).
  - intros H. exists x. by rewrite String.eqb_refl.
Qed.

Lemma append_missing_spec (x : string) (l : list string) :
  NoDup l ->
  NoDup (append_missing x l)
  /\ x ∈ append_missing x l
  /\ (forall y, y ∈ l -> y ∈ append_missing x l)
  /\ head (append_missing x l) = match l with [] => Some x | y :: _ => Some y end.
Proof.
  intros Hnd. unfold append_missing.
  destruct (existsb (String.eqb x) l) eqn:E.
  - apply existsb_eqb_In in E. repeat split; [done | done | done |].
    destruct l; [by apply elem_of_nil in E | done].
  - assert (x ∉ l) as Hx by (rewrite <- existsb_eqb_In; congruence).
    split; [| split; [| split]].
    + apply NoDup_app. repeat split; [done | | apply NoDup_singleton].
      intros y Hy ->%list_elem_of_singleton. done.
    + apply elem_of_app. right. by apply list_elem_of_singleton.
    + intros y Hy. apply elem_of_app. by left.
    + by destruct l.
Qed.

Lemma before_sep_differs (c : ascii) (s : string) :
  PyStr.contains s (String c EmptyString) = true -> before_sep c s <> s.
Proof.
  induction s as [|d s IH]; [done |].
  cbn [PyStr.contains before_sep String.prefix].
  destruct (Ascii.eqb d c) eqn:E; [done |].
  destruct (ascii_dec c d) as [->|Hne]; [by rewrite Ascii.eqb_refl in E |].
  cbn [orb]. intros H [= Heq]. by apply IH.
Qed.

(** X4: the languages tried for a transcript are pairwise distinct, always
    include "en" and "ko", and start with the preferred language when one
    is given. *)
Theorem X4_transcript_langs (lang_pref : string) :
  NoDup (transcript_langs lang_pref)
  /\ "en" ∈ transcript_langs lang_pref
  /\ "ko" ∈ transcript_langs lang_pref
  /\ head (transcript_langs lang_pref)
     = Some (if PyStr.nonempty lang_pref then lang_pref else "en").
Proof.
  unfold transcript_langs.
  set (langs := if PyStr.nonempty lang_pref then _ else _).
  assert (NoDup langs) as Hnd.
  { subst langs. destruct (PyStr.nonempty lang_pref); [| constructor].
    destruct (PyStr.contains lang_pref "-") eqn:E.
    - apply before_sep_differs in E. repeat constructor.
      + intros H%list_elem_of_singleton. congruence.
      + by intros ?%elem_of_nil.
    - apply NoDup_singleton. }
  destruct (append_missing_spec "en" langs Hnd) as (Hnd1 & Hen & Hsub1 & Hhd1).
  destruct (append_missing_spec "ko" _ Hnd1) as (Hnd2 & Hko & Hsub2 & Hhd2).
  split; [done |]. split; [by apply Hsub2 |]. split; [done |].
  rewrite Hhd2.
  destruct (append_missing "en" langs) as [|y l] eqn:E;
    [by apply elem_of_nil in Hen |].
  simpl in Hhd1 |- *. rewrite Hhd1. subst langs.
  by destruct (PyStr.nonempty lang_pref).
Qed.

(** ** [iso8601_to_seconds] *)

Lemma read_digits_cons (c : ascii) (r : string) (acc : Z) :
  read_digits_from (String c r) acc
  = if PyInt.is_digit c then read_digits_from r (acc * 10 + PyInt.digit c)
    else (acc, String c r).
Proof. done. Qed.

Lemma read_digits_run (d : string) (l : ascii) (r : string) (acc : Z) :
  str_all PyInt.is_digit d = true ->
  PyInt.is_digit l = false ->
  read_digits_from (d +:+ String l r) acc
  = (fold_left (fun a c => a * 10 + PyInt.digit c) (list_ascii_of_string d) acc,
     String l r).
Proof.
  revert acc. induction d as [|c d IH]; intros acc Hd Hl.
  - change (EmptyString +:+ String l r) with (String l r).
    by rewrite read_digits_cons, Hl.
  - cbn [str_all] in Hd. apply andb_true_iff in Hd as [Hc Hd].
    rewrite append_cons, read_digits_cons, Hc, IH by done. done.
Qed.

Lemma duration_group_hit (letter : ascii) (mult : Z) (d r : string) :
  digit_string d = true ->
  PyInt.is_digit letter = false ->
  duration_group letter mult (d +:+ String letter r) = (dec_value d * mult, r).
Proof.
  unfold digit_string. intros [Hne Hd]%andb_true_iff Hl.
  unfold duration_group. rewrite read_digits_run by done.
  destruct d as [|c d]; [done |]. rewrite append_cons.
  cbn [str_all] in Hd. apply andb_true_iff in Hd as [-> _].
  by rewrite Ascii.eqb_refl.
Qed.

Lemma duration_group_miss (letter l : ascii) (mult : Z) (d r : string) :
  str_all PyInt.is_digit d = true ->
  PyInt.is_digit l = false ->
  Ascii.eqb l letter = false ->
  duration_group letter mult (d +:+ String l r) = (0, d +:+ String l r).
Proof.
  intros Hd Hl Hne. unfold duration_group. rewrite read_digits_run by done.
  rewrite Hne. destruct d as [|c d].
  - change (EmptyString +:+ String l r) with (String l r). cbv beta iota.
    by rewrite Hl.
  - rewrite append_cons. cbv beta iota. by destruct (PyInt.is_digit c).
Qed.

Lemma digit_string_all (d : string) :
  digit_string d = true -> str_all PyInt.is_digit d = true.
Proof. unfold digit_string. by intros [_ ?]%andb_true_iff. Qed.

(** X5: a duration written as "PT", then any of the groups digits-"H",
    digits-"M", digits-"S" in this order (each may be absent), parses to
    3600 h + 60 m + s, an absent group counting 0. *)
Theorem X5_iso8601_components (oh om os : option string) :
  group_ok oh = true -> group_ok om = true -> group_ok os = true ->
  iso8601_to_seconds
    ("PT" +:+ group_text oh "H" +:+ group_text om "M" +:+ group_text os "S")
  = 3600 * group_value oh + 60 * group_value om + group_value os.
Proof.
  intros Hh Hm Hs.
  change ("PT" +:+ ?x) with (String "P" (String "T" x)).
  cbn [iso8601_to_seconds].
  assert (forall (o : option string) (letter : ascii) (mult : Z) (rest : string),
            group_ok o = true -> PyInt.is_digit letter = false ->
            duration_group letter mult
              (group_text o (String letter EmptyString) +:+ rest) = 
            match o with
            | Some _ => (group_value o * mult, rest)
            | None => duration_group letter mult rest
            end) as Hgrp.
  { intros [d|] letter mult rest Ho Hl; [| done]. cbn [group_text group_value].
    rewrite append_assoc. change (String letter EmptyString +:+ rest)
      with (String letter rest). by apply duration_group_hit. }
  assert (forall (o : option string) (letter l : ascii) (mult : Z) (rest : string),
            group_ok o = true -> PyInt.is_digit l = false ->
            Ascii.eqb l letter = false ->
            duration_group letter mult
              (group_text o (String l EmptyString) +:+ rest) =
            match o with
            | Some _ => (0, group_text o (String l EmptyString) +:+ rest)
            | None => duration_group letter mult rest
            end) as Hskip.
  { intros [d|] letter l mult rest Ho Hl Hne; [| done]. cbn [group_text].
    rewrite append_assoc. change (String l EmptyString +:+ rest)
      with (String l rest). apply duration_group_miss; [| done | done].
    by apply digit_string_all. }
  rewrite <- (append_empty_r (group_text os "S")).
  destruct oh as [dh|], om as [dm|], os as [ds|];
    repeat first
      [ rewrite (Hgrp (Some _) "H"%char) by done
      | rewrite (Hgrp (Some _) "M"%char) by done
      | rewrite (Hgrp (Some _) "S"%char) by done
      | rewrite (Hskip (Some _) "H"%char "M"%char) by done
      | rewrite (Hskip (Some _) "H"%char "S"%char) by done
      | rewrite (Hskip (Some _) "M"%char "S"%char) by done
      | progress change (group_text None ?l +:+ ?x) with x
      | progress cbv beta iota
      | progress cbn [group_value duration_group] ];
    lia.
Qed.

Lemma X5_iso8601_components_witness :
  iso8601_to_seconds "PT1H02M3S" = 3723 /\ iso8601_to_seconds "PT15M" = 900.
Proof.
  split.
  - apply (X5_iso8601_components (Some "1") (Some "02") (Some "3")); reflexivity.
  - apply (X5_iso8601_components None (Some "15") None); reflexivity.
Defined.

Lemma digit_nonneg (c : ascii) : PyInt.is_digit c = true -> 0 <= PyInt.digit c.
Proof.
  unfold PyInt.is_digit, PyInt.digit. intros [H _]%andb_true_iff.
  apply N.leb_le in H. lia.
Qed.

Lemma read_digits_nonneg (s : string) (acc : Z) :
  0 <= acc -> 0 <= fst (read_digits_from s acc).
Proof.
  revert acc. induction s as [|c s IH]; intros acc Hacc; [done |].
  rewrite read_digits_cons. destruct (PyInt.is_digit c) eqn:E; [| done].
  apply IH. pose proof (digit_nonneg c E). lia.
Qed.

Lemma duration_group_nonneg (letter : ascii) (mult : Z) (s : string) :
  0 <= mult -> 0 <= fst (duration_group letter mult s).
Proof.
  intros Hm. unfold duration_group. destruct s as [|c s]; [done |].
  destruct (PyInt.is_digit c); [| done].
  pose proof (read_digits_nonneg (String c s) 0 ltac:(done)) as H.
  destruct (read_digits_from (String c s) 0) as [n [|l r]]; [done |].
  destruct (Ascii.eqb l letter); [simpl in *; lia | done].
Qed.

(** X6: whatever the text, well formed or not, the parsed duration is
    never negative. *)
Theorem X6_iso8601_nonneg (duration : string) : 0 <= iso8601_to_seconds duration.
Proof.
  unfold iso8601_to_seconds. repeat case_match; try done.
  repeat match goal with
         | H : duration_group ?l ?m ?s = _ |- _ =>
             let N := fresh in
             pose proof (duration_group_nonneg l m s ltac:(done)) as N;
             rewrite H in N; clear H
         end.
  simpl in *. lia.
Qed.

(** ** Letter case *)

Lemma lower_char_idem (c : ascii) :
  PyStr.lower_char (PyStr.lower_char c) = PyStr.lower_char c.
Proof. by destruct c as [[] [] [] [] [] [] [] []]. Qed.

Lemma is_space_lower_char (c : ascii) :
  PyStr.is_space (PyStr.lower_char c) = PyStr.is_space c.
Proof. by destruct c as [[] [] [] [] [] [] [] []]. Qed.

Lemma lower_lower (s : string) : PyStr.lower (PyStr.lower s) = PyStr.lower s.
Proof.
  induction s as [|c s IH]; [done |].
  cbn [PyStr.lower]. by rewrite lower_char_idem, IH.
Qed.

Lemma all_space_lower (s : string) :
  PyStr.all_space (PyStr.lower s) = PyStr.all_space s.
Proof.
  induction s as [|c s IH]; [done |].
  cbn [PyStr.lower PyStr.all_space]. by rewrite is_space_lower_char, IH.
Qed.

Lemma nonempty_strip (k : string) :
  PyStr.nonempty (PyStr.strip k) = negb (PyStr.all_space k).
Proof.
  pose proof (strip_empty_iff k) as H.
  destruct (PyStr.strip k) eqn:E, (PyStr.all_space k) eqn:F;
    simpl; try done; intuition congruence.
Qed.

Lemma live_lower (k : string) :
  PyStr.nonempty (PyStr.strip (PyStr.lower k)) = PyStr.nonempty (PyStr.strip k).
Proof. by rewrite !nonempty_strip, all_space_lower. Qed.

Lemma filter_live_lower (kws : list string) :
  map normalize_text
      (List.filter (fun k => PyStr.nonempty (PyStr.strip k)) kws)
  = List.filter (fun k => PyStr.nonempty (PyStr.strip k)) (map PyStr.lower kws).
Proof.
  induction kws as [|k kws IH]; [done |].
  cbn [List.filter map]. rewrite live_lower.
  destruct (PyStr.nonempty (PyStr.strip k)); cbn [map]; by rewrite IH.
Qed.

(** X7: the keyword filter is blind to letter case: two texts that lower
    to the same text, with two keyword lists that lower to the same list,
    get the same verdict in either mode. *)
Theorem X7_contains_keywords_case_blind (text text' : string)
    (kws kws' : list string) (mode : string) :
  PyStr.lower text = PyStr.lower text' ->
  map PyStr.lower kws = map PyStr.lower kws' ->
  contains_keywords text kws mode = contains_keywords text' kws' mode.
Proof.
  intros Ht Hk. unfold contains_keywords.
  destruct kws as [|k kws], kws' as [|k' kws']; try done.
  unfold normalize_text at 1 3. by rewrite !filter_live_lower, Ht, Hk.
Qed.

Lemma X7_contains_keywords_case_blind_witness :
  contains_keywords "Funny CATS" ["cats"; "Funny"] "all"
  = contains_keywords "funny cats" ["CATS"; "funny"] "all".
Proof.
  by apply (X7_contains_keywords_case_blind "Funny CATS" "funny cats"
              ["cats"; "Funny"] ["CATS"; "funny"] "all").
Defined.

(** ** Keyword translation *)

Section TranslateProps.

Variable googletrans : string -> string -> string -> option string.
Variable deep_translator : string -> string -> string -> option string.

Lemma translate_from_inv (src tgt : string) (ks : list string) :
  forall (seen : gset string) (outs : list string),
    (forall v, v ∈ outs -> PyStr.lower v ∈ seen) ->
    NoDup (map PyStr.lower outs) ->
    Forall (fun v => v <> EmptyString /\ PyStr.strip v = v) outs ->
    let res := translate_from googletrans deep_translator src tgt ks seen outs in
    NoDup (map PyStr.lower res)
    /\ Forall (fun v => v <> EmptyString /\ PyStr.strip v = v) res
    /\ (length res <= length outs + length ks)%nat.
Proof.
  induction ks as [|k ks IH]; intros seen outs Hseen Hnd Hok.
  - cbn. repeat split; [done | done | lia].
  - cbn [translate_from].
    set (v := PyStr.strip (translate_keyword_once googletrans deep_translator k src tgt)).
    destruct (PyStr.nonempty v) eqn:Hv; cbn [andb].
    + destruct (bool_decide (PyStr.lower v ∈ seen)) eqn:Hin; cbn [negb].
      * destruct (IH seen outs Hseen Hnd Hok) as (? & ? & ?).
        repeat split; [done | done | cbn [length]; lia].
      * apply bool_decide_eq_false in Hin.
        destruct (IH ({[PyStr.lower v]} ∪ seen) (outs ++ [v])) as (? & ? & Hlen).
        -- intros x [Hx | Hx%list_elem_of_singleton]%elem_of_app.
           ++ apply elem_of_union_r. by apply Hseen.
           ++ subst x. apply elem_of_union_l. by apply elem_of_singleton.
        -- rewrite map_app. apply NoDup_app. split; [done |]. split.
           ++ intros x Hx Hx'. cbn in Hx'.
              apply list_elem_of_singleton in Hx'. subst x.
              apply list_elem_of_fmap in Hx as (y & Hy & Hy'). apply Hin.
              rewrite Hy. by apply Hseen.
           ++ apply NoDup_singleton.
        -- apply Forall_app. split; [done |]. constructor; [| done]. split.
           ++ intros E. by rewrite E in Hv.
           ++ apply strip_strip.
        -- repeat split; [done | done |].
           rewrite length_app in Hlen. cbn [length] in *. lia.
    + destruct (IH seen outs Hseen Hnd Hok) as (? & ? & ?).
      repeat split; [done | done | cbn [length]; lia].
Qed.

(** X8: whatever the translation back ends answer, the translated
    keyword list holds no blank entry, every entry is stripped, no two
    entries are equal up to letter case, and it is no longer than the
    input. *)
Theorem X8_translate_keywords_clean (keywords : list string) (src tgt : string) :
  let out := translate_keywords_list googletrans deep_translator keywords src tgt in
  NoDup (map PyStr.lower out)
  /\ Forall (fun v => v <> EmptyString /\ PyStr.strip v = v) out
  /\ (length out <= length keywords)%nat.
Proof.
  unfold translate_keywords_list.
  destruct (translate_from_inv src tgt
              (map PyStr.strip
                 (List.filter (fun x => PyStr.nonempty x && PyStr.nonempty (PyStr.strip x))
                              keywords)) ∅ []) as (Hnd & Hok & Hlen).
  - by intros v ?%elem_of_nil.
  - constructor.
  - constructor.
  - repeat split; [done | done |].
    cbn [length] in Hlen. rewrite length_map in Hlen.
    pose proof (List.filter_length_le
                  (fun x => PyStr.nonempty x && PyStr.nonempty (PyStr.strip x))
                  keywords).
    lia.
Qed.

Lemma translate_from_untranslated (src tgt : string) (ks : list string) :
  forall (seen : gset string) (outs : list string),
    Forall (fun k => translate_keyword_once googletrans deep_translator k src tgt
                     = PyStr.strip k) ks ->
    exists ext,
      translate_from googletrans deep_translator src tgt ks seen outs = outs ++ ext
      /\ ext `sublist_of` map PyStr.strip ks.
Proof.
  induction ks as [|k ks IH]; intros seen outs Hks.
  - exists []. by rewrite app_nil_r.
  - apply Forall_cons in Hks as [Hk Hks]. cbn [translate_from]. rewrite Hk, strip_strip.
    destruct (PyStr.nonempty (PyStr.strip k)
              && negb (bool_decide (PyStr.lower (PyStr.strip k) ∈ seen))).
    + destruct (IH ({[PyStr.lower (PyStr.strip k)]} ∪ seen) (outs ++ [PyStr.strip k]) Hks)
        as (ext & -> & Hext).
      exists (PyStr.strip k :: ext). split; [by rewrite <- app_assoc |].
      cbn [map]. by apply sublist_skip.
    + destruct (IH seen outs Hks) as (ext & -> & Hext).
      exists ext. split; [done |]. cbn [map]. by apply sublist_cons.
Qed.

(** X9: when source and target language are the same, or when both back
    ends fail on every text, nothing is translated: the output is a
    sub-sequence of the stripped input keywords. *)
Theorem X9_translate_keywords_fallback (keywords : list string) (src tgt : string) :
  src = tgt
  \/ (forall s, googletrans s src tgt = None /\ deep_translator s src tgt = None) ->
  translate_keywords_list googletrans deep_translator keywords src tgt
    `sublist_of` map PyStr.strip keywords.
Proof.
  intros Hcase. unfold translate_keywords_list.
  destruct (translate_from_untranslated src tgt
              (map PyStr.strip
                 (List.filter (fun x => PyStr.nonempty x && PyStr.nonempty (PyStr.strip x))
                              keywords)) ∅ []) as (ext & -> & Hext).
  - apply Forall_forall. intros k _. unfold translate_keyword_once.
    destruct Hcase as [-> | Hnone].
    + by rewrite String.eqb_refl, orb_true_r.
    + destruct (Hnone (PyStr.strip k)) as [-> ->]. by repeat case_match.
  - cbn [app]. etrans; [exact Hext |].
    rewrite map_map, (map_ext _ PyStr.strip) by (intros; apply strip_strip).
    assert (List.filter (fun x => PyStr.nonempty x && PyStr.nonempty (PyStr.strip x))
                        keywords `sublist_of` keywords) as Hf.
    { clear. induction keywords as [|k ks IH]; [done |].
      cbn [List.filter].
      destruct (_ && _); [by apply sublist_skip | by apply sublist_cons]. }
    exact (fmap_sublist PyStr.strip _ _ Hf).
Qed.

End TranslateProps.

Lemma X9_translate_keywords_fallback_witness :
  translate_keywords_list (fun _ _ _ => Some "x") (fun _ _ _ => None)
                          [" cats "; "Cats"; " "; "dogs"] "ko" "ko"
    `sublist_of` map PyStr.strip [" cats "; "Cats"; " "; "dogs"].
Proof.
  apply (X9_translate_keywords_fallback (fun _ _ _ => Some "x") (fun _ _ _ => None)
           [" cats "; "Cats"; " "; "dogs"] "ko" "ko").
  by left.
Defined.

(** ** Gateway: bounds on requests and waiting *)

Lemma yt_get_loop_clock rq wt mx script :
  forall tries w,
    let w' := snd (yt_get_loop rq wt mx script tries w) in
    (clock w <= clock w')%Q
    /\ (clock w' <= clock w
                    + inject_Z (Z.of_nat (Z.to_nat (mx - tries)) * wait_secs wt))%Q.
Proof.
  assert (0 <= wait_secs wt) as Hws by (unfold wait_secs; lia).
  induction script as [|ev rest IH]; intros tries w.
  - cbn. split; [apply Qle_refl |].
    rewrite <- (Qplus_0_r (clock w)) at 1. apply Qplus_le_r.
    change 0%Q with (inject_Z 0). rewrite <- Zle_Qle. nia.
  - cbn [yt_get_loop].
    pose proof (yt_get_step_inv rq wt mx ev rest tries w) as H.
    destruct (yt_get_step rq wt mx ev rest tries w) as [r w1|t w1].
    + assert (clock w1 = clock w) as E.
      { by destruct H as [[-> _] | (r0 & _ & _ & -> & _)]. }
      cbn [snd]. rewrite E. split; [apply Qle_refl |].
      rewrite <- (Qplus_0_r (clock w)) at 1. apply Qplus_le_r.
      change 0%Q with (inject_Z 0). rewrite <- Zle_Qle. nia.
    + destruct H as (-> & Hle & reason & ->).
      destruct (IH (tries + 1)
                   (wait_for_quota (endpoint rq) reason wt (send rq rest w)))
        as [Hlo Hhi].
      cbn [snd] in *.
      set (w' := snd (yt_get_loop _ _ _ _ _ _)) in *.
      change (clock (wait_for_quota (endpoint rq) reason wt (send rq rest w)))
        with (clock w + inject_Z (wait_secs wt))%Q in Hlo, Hhi.
      assert (Z.of_nat (Z.to_nat (mx - tries)) * wait_secs wt
              = wait_secs wt + Z.of_nat (Z.to_nat (mx - (tries + 1))) * wait_secs wt)
        as -> by nia.
      rewrite inject_Z_plus. split.
      * eapply Qle_trans; [| exact Hlo]. rewrite <- (Qplus_0_r (clock w)) at 1.
        apply Qplus_le_r. change 0%Q with (inject_Z 0). by rewrite <- Zle_Qle.
      * by rewrite Qplus_assoc.
Qed.

(** X10: one gateway call issues at most [max_retries + 1] HTTP requests,
    and at least one when a response is to come; the clock never goes back and
    the call waits at most [max_retries] times the whole seconds of the
    configured wait. *)
Theorem X10_gateway_bounded e ps key wt mx w :
  let w' := snd (yt_get e ps key wt mx w) in
  (length (sent w') <= length (sent w) + S (Z.to_nat mx))%nat
  /\ (net w <> [] -> (length (sent w) < length (sent w'))%nat)
  /\ (clock w <= clock w')%Q
  /\ (clock w' <= clock w + inject_Z (Z.of_nat (Z.to_nat mx) * wait_secs wt))%Q.
Proof.
  intros w'. split; [apply yt_get_bounded |]. split; [apply yt_get_sends_one |].
  subst w'. unfold yt_get.
  match goal with |- context [yt_get_loop ?rq wt mx ?s 0 ?w1] =>
    pose proof (yt_get_loop_clock rq wt mx s 0 w1) as H
  end.
  by rewrite Z.sub_0_r in H.
Qed.

Lemma yt_get_step_no_wait rq wt mx ev rest tries w :
  (wt <= 0)%Q ->
  exists r, yt_get_step rq wt mx ev rest tries w
            = Leave r (match ev with
                       | Reply r0 =>
                           if status_code r0 =? 200
                           then _record_quota (endpoint rq) (url r0) (send rq rest w)
                           else send rq rest w
                       | Timeout => send rq rest w
                       end).
Proof.
  intros Hwt. unfold yt_get_step. destruct ev as [r0|]; [| by eexists].
  destruct (status_code r0 =? 200); [by destruct (json_body r0); eexists |].
  destruct (err_reason r0) as [reason| |]; [| by eexists | by eexists].
  destruct (retry_guard _ _ _ _ _) eqn:G; [| by eexists].
  apply retry_guard_iff in G as (_ & _ & G & _).
  by apply Qlt_not_le in G.
Qed.

(** X11: with a wait of zero minutes (the default) or less the gateway
    never retries and never waits: the call consumes exactly the next
    response, sends exactly one request, and leaves the clock and the
    waiting flag as they were. *)
Theorem X11_gateway_no_wait e ps key wt mx w :
  (wt <= 0)%Q ->
  let w' := snd (yt_get e ps key wt mx w) in
  net w' = tail (net w)
  /\ sent w' = match net w with
               | [] => sent w
               | _ :: _ => sent w ++ [{| endpoint := e;
                                         params := <["key" := JStr key]> ps |}]
               end
  /\ clock w' = clock w
  /\ api_waiting w' = api_waiting w
  /\ api_wait_reason w' = api_wait_reason w.
Proof.
  intros Hwt w'. subst w'. unfold yt_get.
  destruct (net w) as [|ev rest] eqn:E; [done |].
  cbn [yt_get_loop tail].
  match goal with |- context [yt_get_step ?rq wt mx ev rest 0 ?w1] =>
    destruct (yt_get_step_no_wait rq wt mx ev rest 0 w1 Hwt) as [r ->]
  end.
  cbn [snd]. destruct ev as [r0|]; [| done].
  by destruct (status_code r0 =? 200).
Qed.

Lemma X11_gateway_no_wait_witness :
  let w := initial_world [quota_failure; quota_failure] 0 in
  let w' := snd (yt_get "search" ∅ "k" 0 2 w) in
  net w' = [quota_failure] /\ length (sent w') = 1%nat /\ clock w' = 0%Q.
Proof.
  intros w w'.
  destruct (X11_gateway_no_wait "search" ∅ "k" 0 2 w ltac:(done))
    as (Hn & Hs & Hc & _).
  fold w' in Hn, Hs, Hc. by rewrite Hn, Hs, Hc.
Defined.

(** ** Gateway: what a call is charged *)

Lemma yt_get_step_charge rq wt mx ev rest tries w :
  match yt_get_step rq wt mx ev rest tries w with
  | Again _ w' => uncharged w w'
  | Leave r w' =>
      (uncharged w w' /\ (forall d, r <> Ret d))
      \/ (charged (endpoint rq) w w' /\ ((exists d, r = Ret d) \/ r = Raise ValueError))
  end.
Proof.
  unfold yt_get_step. destruct ev as [r0|]; [| by left].
  destruct (status_code r0 =? 200).
  - assert (charged (endpoint rq) w
              (_record_quota (endpoint rq) (url r0) (send rq rest w))) as Hc.
    { split; [done | by exists (url r0)]. }
    destruct (json_body r0); right; eauto.
  - destruct (err_reason r0) as [reason| |]; [| by left | by left].
    by destruct (retry_guard _ _ _ _ _); [| left].
Qed.

Lemma uncharged_charged kind a b c :
  uncharged a b -> charged kind b c -> charged kind a c.
Proof. intros (? & Hu & Hl) [? [p ?]]. split; [lia | exists p; congruence]. Qed.

Lemma uncharged_trans a b c : uncharged a b -> uncharged b c -> uncharged a c.
Proof. intros (? & ? & ?) (? & ? & ?). repeat split; congruence. Qed.

Lemma yt_get_loop_charge rq wt mx script :
  forall tries w,
    let out := yt_get_loop rq wt mx script tries w in
    (uncharged w (snd out) /\ (forall d, fst out <> Ret d))
    \/ (charged (endpoint rq) w (snd out)
        /\ ((exists d, fst out = Ret d) \/ fst out = Raise ValueError)).
Proof.
  induction script as [|ev rest IH]; intros tries w; [by left |].
  cbn [yt_get_loop].
  pose proof (yt_get_step_charge rq wt mx ev rest tries w) as H.
  destruct (yt_get_step rq wt mx ev rest tries w) as [r w1|t w1]; [exact H |].
  destruct (IH t w1) as [[Hu Hr] | [Hc Hr]].
  - left. split; [by eapply uncharged_trans | done].
  - right. split; [by eapply uncharged_charged | done].
Qed.

(** X12: a gateway call that returns has been charged exactly once: the
    units of its endpoint are added to the usage and one entry is appended
    to the log, however many retries came before.  A call that does not
    return leaves counters, usage and log untouched, with one exception: a
    200 response whose body does not decode is charged before the decoding
    raises [ValueError]. *)
Theorem X12_gateway_charge e ps key wt mx w :
  let out := yt_get e ps key wt mx w in
  (forall d, fst out = Ret d -> charged e w (snd out))
  /\ ((forall d, fst out <> Ret d) -> fst out <> Raise ValueError ->
      uncharged w (snd out)).
Proof.
  intros out. subst out. unfold yt_get.
  match goal with |- context [yt_get_loop ?rq wt mx ?s 0 ?w1] =>
    pose proof (yt_get_loop_charge rq wt mx s 0 w1) as H
  end.
  cbn [endpoint] in H. split.
  - intros d Hd. destruct H as [[_ Hr] | [Hc _]]; [by destruct (Hr d) | exact Hc].
  - intros Hr Hv. destruct H as [[Hu _] | [_ [[d Hd] | Hd]]];
      [exact Hu | by destruct (Hr d) | done].
Qed.

Lemma X12_gateway_charge_witness :
  uncharged (initial_world [quota_failure] 0)
            (snd (yt_get "search" ∅ "k" 0 2 (initial_world [quota_failure] 0))).
Proof.
  by apply (X12_gateway_charge "search" ∅ "k" 0 2 (initial_world [quota_failure] 0)).
Defined.

(** ** The run block: what only grows *)

Lemma grows_refl w : grows w w.
Proof. by repeat split. Qed.

Lemma grows_trans a b c : grows a b -> grows b c -> grows a c.
Proof.
  intros (? & ? & ? & ?) (? & ? & ? & ?).
  repeat split; [lia | by etrans | by etrans | by etrans].
Qed.

Lemma quota_units_nonneg (kind : string) : 0 <= _quota_units_for kind.
Proof. unfold _quota_units_for. repeat case_match; lia. Qed.

Lemma yt_get_grows e ps key wt mx : respects grows (yt_get e ps key wt mx).
Proof.
  intros w. unfold yt_get.
  apply (grows_trans _ (set_net (net w) (sent w)
                          (calls w ++ [{| endpoint := e;
                                          params := <["key" := JStr key]> ps |}]) w)).
  { repeat split; try done. by apply prefix_app_r. }
  apply respects_yt_get_loop; [apply grows_refl | apply grows_trans | | |].
  - intros rest w1. repeat split; try done. by apply prefix_app_r.
  - intros p w1. repeat split; try done; cbn.
    + pose proof (quota_units_nonneg e). lia.
    + by apply prefix_app_r.
  - intros reason wt' w1. by repeat split.
Qed.

(** X18: through a whole run, however it ends, the recorded usage never
    decreases, and the quota log, the log of HTTP requests and the log of
    gateway calls are only appended to. *)
Theorem X18_run_grows fromisoformat isoformat cfg w :
  grows w (snd (run fromisoformat isoformat cfg w)).
Proof.
  revert w. change (respects grows (run fromisoformat isoformat cfg)).
  unfold run.
  destruct (negb (PyStr.nonempty (api_key cfg))); [intros w; apply grows_refl |].
  destruct (_ && _); [intros w; apply grows_refl |].
  apply respects_bind; [apply grows_trans | |].
  - apply respects_collect_rows;
      [apply grows_refl | apply grows_trans | apply yt_get_grows |].
    intros d w. by repeat split.
  - intros rows w. by repeat split.
Qed.

(** ** Channel statistics: one call per chunk *)



(** ** Video details: a dict keyed by identifier *)

Lemma key_eqb_sym (a b : json) : PyDict.key_eqb a b = PyDict.key_eqb b a.
Proof.
  destruct a, b; simpl; try done;
    first [apply String.eqb_sym | apply Z.eqb_sym | idtac];
    repeat case_match; try done; apply Z.eqb_sym.
Qed.

Lemma key_eqb_refl (k : json) : PyDict.hashable k = true -> PyDict.key_eqb k k = true.
Proof.
  destruct k; simpl; try done; intros _;
    first [apply String.eqb_refl | apply Z.eqb_refl | by case_match].
Qed.

Lemma store_keys {V} (k : json) (v : V) (d : PyDict.t V) :
  map fst (PyDict.store k v d)
  = if existsb (PyDict.key_eqb k) (map fst d) then map fst d else map fst d ++ [k].
Proof.
  induction d as [|[k' v'] d IH]; [done |].
  cbn [PyDict.store map fst existsb].
  destruct (PyDict.key_eqb k k'); [done |]. cbn [map fst orb]. rewrite IH.
  by destruct (existsb _ _).
Qed.

Lemma distinct_keys_snoc (ks : list json) (k : json) :
  distinct_keys ks = true ->
  existsb (PyDict.key_eqb k) ks = false ->
  distinct_keys (ks ++ [k]) = true.
Proof.
  induction ks as [|k' ks IH]; [done |].
  cbn [distinct_keys existsb app].
  intros [Hk' Hd]%andb_true_iff [Hk Hex]%orb_false_iff.
  rewrite existsb_app, IH by done. cbn [existsb].
  rewrite (key_eqb_sym k' k), Hk.
  apply negb_true_iff in Hk'. by rewrite Hk'.
Qed.

Lemma store_keeps {V} (k : json) (v : V) (d : PyDict.t V) :
  distinct_keys (map fst d) = true ->
  distinct_keys (map fst (PyDict.store k v d)) = true.
Proof.
  intros Hd. rewrite store_keys.
  destruct (existsb _ _) eqn:E; [done | by apply distinct_keys_snoc].
Qed.

Lemma store_filed (k it : json) (d : PyDict.t json) :
  Py.item it "id" = Ret k ->
  PyDict.hashable k = true ->
  Forall filed_under_id d ->
  Forall filed_under_id (PyDict.store k it d).
Proof.
  intros Hit Hh. induction d as [|[k' v'] d IH]; intros Hd.
  - repeat constructor. exists k. split; [done | by apply key_eqb_refl].
  - apply Forall_cons in Hd as [Hkv Hd]. cbn [PyDict.store].
    destruct (PyDict.key_eqb k k') eqn:E.
    + constructor; [| done]. by exists k.
    + constructor; [done | by apply IH].
Qed.

Lemma merge_details_inv (items : list json) :
  forall d d',
    merge_details items d = Ret d' ->
    distinct_keys (map fst d) = true -> Forall filed_under_id d ->
    distinct_keys (map fst d') = true /\ Forall filed_under_id d'.
Proof.
  induction items as [|it items IH]; intros d d'.
  - by intros [= <-].
  - cbn [merge_details]. destruct (Py.item it "id") as [k| |] eqn:Hk; [| done | done].
    cbn [res_bind]. unfold PyDict.setitem.
    destruct (PyDict.hashable k) eqn:Hh; [| done]. cbn [res_bind].
    intros Hrec Hd Hf. apply (IH _ _ Hrec); [by apply store_keeps | by apply store_filed].
Qed.

Lemma details_loop_inv key wt batches :
  forall d w d' w',
    details_loop key wt batches d w = (Ret d', w') ->
    distinct_keys (map fst d) = true -> Forall filed_under_id d ->
    distinct_keys (map fst d') = true /\ Forall filed_under_id d'.
Proof.
  induction batches as [|batch rest IH]; intros d w d' w'.
  - by intros [= <- <-].
  - cbn [details_loop]. intros H Hd Hf.
    apply bind_ret_inv in H as (ids & w1 & _ & H).
    apply bind_ret_inv in H as (data & w2 & _ & H).
    apply bind_ret_inv in H as (items & w3 & _ & H).
    apply bind_ret_inv in H as (d1 & w4 & [Hm _]%lift_ret_inv & H).
    destruct (merge_details_inv items d d1 Hm Hd Hf) as [Hd1 Hf1].
    exact (IH d1 w4 d' w' H Hd1 Hf1).
Qed.

Lemma fetch_video_details_inv key ids wt w details w' :
  fetch_video_details key ids wt w = (Ret details, w') ->
  distinct_keys (map fst details) = true /\ Forall filed_under_id details.
Proof.
  unfold fetch_video_details. destruct ids as [|i ids'].
  - by intros [= <- <-].
  - intros H. by apply (details_loop_inv _ _ _ _ _ _ _ H).
Qed.

(** X14: the detail map the step returns has pairwise different keys, and
    every record in it is filed under the identifier it carries: a video
    that the responses deliver more than once is kept once. *)
Theorem X14_details_keyed (key : string) (ids : list json) (wt : Q) (w : world)
    (details : PyDict.t json) (w' : world) :
  fetch_video_details key ids wt w = (Ret details, w') ->
  distinct_keys (map fst details) = true /\ Forall filed_under_id details.
Proof. apply fetch_video_details_inv. Qed.

Lemma X14_details_keyed_witness :
  distinct_keys
    (map fst [(JStr "v1", scenario_detail)]) = true
  /\ Forall filed_under_id [(JStr "v1", scenario_detail)].
Proof.
  apply (X14_details_keyed "k" [JStr "v1"; JStr "v1"] 0
           (initial_world
              [ok_reply (JObj [("items", JArr [scenario_detail; scenario_detail])])] 0)
           [(JStr "v1", scenario_detail)]
           (snd (fetch_video_details "k" [JStr "v1"; JStr "v1"] 0
                   (initial_world
                      [ok_reply (JObj [("items",
                                        JArr [scenario_detail; scenario_detail])])] 0)))).
  reflexivity.
Defined.

(** ** Channel tokens *)

Section ResolveProps.

Variable cfg : config.

Lemma resolve_from_spec (lst : list string) :
  forall out w res w',
    resolve_channel_ids_from cfg lst out w = (Ret res, w') ->
    exists ext new,
      res = out ++ ext
      /\ (length ext <= length lst)%nat
      /\ map JStr (List.filter (fun t => negb (is_handle t)) lst) `sublist_of` ext
      /\ calls w' = calls w ++ new
      /\ Forall (fun rq => endpoint rq = "search") new
      /\ length new = length (List.filter is_handle lst).
Proof.
  induction lst as [|token rest IH]; intros out w res w'.
  - intros [= <- <-]. exists [], []. by rewrite !app_nil_r.
  - cbn [resolve_channel_ids_from List.filter].
    change (PyStr.startswith token "@") with (is_handle token).
    destruct (is_handle token) eqn:E; cbn [negb].
    + intros H.
      apply bind_ret_inv in H as (data & w1 & Hget & H).
      apply bind_ret_inv in H as (items & w2 & [_ ->]%lift_ret_inv & H).
      apply bind_ret_inv in H as (ch_id & w3 & [_ ->]%lift_ret_inv & H).
      pose proof (yt_get_calls "search" (channel_query token) (api_key cfg)
                    (wait_minutes cfg) 2 w) as Hcall.
      rewrite Hget in Hcall. cbn [snd] in Hcall.
      destruct (IH _ _ _ _ H) as (ext & new & -> & Hlen & Hsub & Hc & Hall & Hn).
      set (rq := {| endpoint := "search";
                    params := <["key" := JStr (api_key cfg)]> (channel_query token) |})
        in Hcall.
      destruct (Py.truthy ch_id).
      * exists (ch_id :: ext), (rq :: new).
        rewrite Hc, Hcall, <- !app_assoc. repeat split; try done.
        -- simpl. lia.
        -- by apply sublist_cons.
        -- by constructor.
        -- simpl. by rewrite Hn.
      * exists ext, (rq :: new).
        rewrite Hc, Hcall, <- !app_assoc. repeat split; try done.
        -- simpl. lia.
        -- by constructor.
        -- simpl. by rewrite Hn.
    + intros H.
      destruct (IH _ _ _ _ H) as (ext & new & -> & Hlen & Hsub & Hc & Hall & Hn).
      exists (JStr token :: ext), new. rewrite <- !app_assoc.
      repeat split; try done.
      * simpl. lia.
      * cbn [map]. by apply sublist_skip.
Qed.

Lemma resolve_from_plain (lst : list string) :
  forall out w,
    Forall (fun t => is_handle t = false) lst ->
    resolve_channel_ids_from cfg lst out w = (Ret (out ++ map JStr lst), w).
Proof.
  induction lst as [|token rest IH]; intros out w Hp.
  - by rewrite app_nil_r.
  - apply Forall_cons in Hp as [Ht Hp]. cbn [resolve_channel_ids_from].
    unfold is_handle in Ht. rewrite Ht, IH by done. by rewrite <- app_assoc.
Qed.

(** X15: channel tokens that are not handles are passed through as they
    are, in order; each handle costs one "search" call and yields at most
    one identifier.  So the resolved list is no longer than the input, and
    a list without handles is returned unchanged with no call at all. *)
Theorem X15_resolve_channel_ids (lst : list string) (w : world) :
  (forall res w',
     resolve_channel_ids cfg lst w = (Ret res, w') ->
     (length res <= length lst)%nat
     /\ map JStr (List.filter (fun t => negb (is_handle t)) lst) `sublist_of` res
     /\ calls_more "search" (length (List.filter is_handle lst)) w w')
  /\ (Forall (fun t => is_handle t = false) lst ->
      resolve_channel_ids cfg lst w = (Ret (map JStr lst), w)).
Proof.
  unfold resolve_channel_ids. split.
  - intros res w' H.
    destruct (resolve_from_spec _ _ _ _ _ H) as (ext & new & -> & ? & ? & ? & ? & ?).
    repeat split; [done | done |]. by exists new.
  - intros Hp. by rewrite resolve_from_plain.
Qed.

End ResolveProps.

(** ** Pagination walker on well-formed pages *)

(** X16: on a script of well-formed search pages, each but the last naming
    a next page, a walk with a cap of at least 1 returns the first
    [max_results] identifiers of the pages in page order, all of them when
    there are fewer. *)
Theorem X16_walker_first_ids key q ch reg lang pa mx order wt w pages :
  pages <> [] ->
  net w = paged_script pages ->
  1 <= mx ->
  exists out,
    fst (fetch_videos_by_search key q ch reg lang pa mx order wt w) = Ret out
    /\ out = map JStr (take (Z.to_nat mx) (concat pages))
    /\ Z.of_nat (length out) = Z.min mx (Z.of_nat (length (concat pages))).
Proof.
  intros Hne Hnet Hmx. eexists. split; [by apply walker_returns_on_pages |].
  rewrite fmap_take. split; [done |].
  rewrite length_take, length_map. lia.
Qed.

Lemma X16_walker_first_ids_witness :
  fst (fetch_videos_by_search "k" (JStr "cats") JNull JNull JNull JNull 3 "date" 0
         (initial_world (paged_script [["a"; "b"]; ["c"; "d"]]) 0))
  = Ret [JStr "a"; JStr "b"; JStr "c"].
Proof.
  destruct (X16_walker_first_ids "k" (JStr "cats") JNull JNull JNull JNull 3 "date" 0
              (initial_world (paged_script [["a"; "b"]; ["c"; "d"]]) 0)
              [["a"; "b"]; ["c"; "d"]] ltac:(done) ltac:(done) ltac:(done))
    as (out & -> & -> & _).
  reflexivity.
Defined.

(** ** The rows of a run *)

Section RowProps.

Variable fromisoformat : string -> res Q.
Variable isoformat : Q -> string.
Variable cfg : config.

Lemma row_of_spec now subs_map kws vid detail r :
  row_of fromisoformat cfg now subs_map kws vid detail = Ret (Some r) ->
  row_vid r = vid /\ row_ok cfg r.
Proof.
  unfold row_of.
  destruct (Py.item detail "snippet") as [snip| |]; [| done | done]. cbn [res_bind].
  destruct (compute_metrics fromisoformat detail now) as [m| |]; [| done | done].
  cbn [res_bind].
  destruct (negb (ignore_filters cfg) && _) eqn:Hf; [done |].
  match goal with |- context [res_bind ?x _] => destruct x as [keep| |] end;
    [| done | done].
  cbn [res_bind]. destruct (negb keep); [done |].
  destruct (Py.item snip "channelId") as [ch| |]; [| done | done]. cbn [res_bind].
  destruct (PyDict.get ch 0 subs_map) as [subs| |]; [| done | done]. cbn [res_bind].
  destruct (0 <? subs) eqn:Hs.
  - unfold py_div. destruct (Qeq_bool (inject_Z subs) 0); [done |]. cbn [res_bind].
    destruct (thumb_of snip) as [th| |]; [| done | done]. cbn [res_bind].
    destruct (Py.item snip "channelTitle") as [ct| |]; [| done | done]. cbn [res_bind].
    destruct (Py.item snip "title") as [ti| |]; [| done | done]. cbn [res_bind].
    intros [= <-]. split; [done |]. unfold row_ok. cbn.
    split; [done |]. split; [done |]. split.
    { apply Z.ltb_lt in Hs. by split. }
    intros Hi. rewrite Hi in Hf. cbn [negb andb] in Hf.
    apply orb_false_iff in Hf as [Hd Hv]. apply negb_false_iff in Hd.
    split; [done |]. eexists. split; [done |].
    unfold Qlt_bool in Hv. apply negb_false_iff in Hv. by apply Qle_bool_iff.
  - cbn [res_bind].
    destruct (thumb_of snip) as [th| |]; [| done | done]. cbn [res_bind].
    destruct (Py.item snip "channelTitle") as [ct| |]; [| done | done]. cbn [res_bind].
    destruct (Py.item snip "title") as [ti| |]; [| done | done]. cbn [res_bind].
    intros [= <-]. split; [done |]. unfold row_ok. cbn.
    split; [done |]. split; [done |]. split.
    { apply Z.ltb_ge in Hs. split; [done | lia]. }
    intros Hi. rewrite Hi in Hf. cbn [negb andb] in Hf.
    apply orb_false_iff in Hf as [Hd Hv]. apply negb_false_iff in Hd.
    split; [done |]. eexists. split; [done |].
    unfold Qlt_bool in Hv. apply negb_false_iff in Hv. by apply Qle_bool_iff.
Qed.

Lemma rows_of_spec now subs_map kws details :
  forall rows out,
    rows_of fromisoformat cfg now subs_map kws details rows = Ret out ->
    exists ext,
      out = rows ++ ext
      /\ Forall (row_ok cfg) ext
      /\ map row_vid ext `sublist_of` map fst details.
Proof.
  induction details as [|[vid detail] rest IH]; intros rows out.
  - intros [= <-]. exists []. by rewrite app_nil_r.
  - cbn [rows_of].
    destruct (row_of fromisoformat cfg now subs_map kws vid detail) as [[r|]| |] eqn:Hr;
      [| | done | done]; cbn [res_bind]; intros H.
    + destruct (IH _ _ H) as (ext & -> & Hok & Hsub).
      apply row_of_spec in Hr as [Hv Hr].
      exists (r :: ext). rewrite <- app_assoc. split; [done |].
      split; [by constructor |]. cbn [map fst]. rewrite Hv. by apply sublist_skip.
    + destruct (IH _ _ H) as (ext & -> & Hok & Hsub).
      exists ext. split; [done |]. split; [done |]. cbn [map fst].
      by apply sublist_cons.
Qed.

Lemma existsb_sublist {A} (p : A -> bool) (l1 l2 : list A) :
  l1 `sublist_of` l2 -> existsb p l1 = true -> existsb p l2 = true.
Proof.
  induction 1 as [|x l1 l2 _ IH|x l1 l2 _ IH]; cbn [existsb]; [done | |].
  - intros [->|?]%orb_true_iff; [done |]. rewrite IH by done. apply orb_true_r.
  - intros ?. rewrite IH by done. apply orb_true_r.
Qed.

Lemma distinct_keys_sublist (l1 l2 : list json) :
  l1 `sublist_of` l2 -> distinct_keys l2 = true -> distinct_keys l1 = true.
Proof.
  induction 1 as [|x l1 l2 Hs IH|x l1 l2 Hs IH]; cbn [distinct_keys]; [done | |].
  - intros [Hx Hd]%andb_true_iff. rewrite IH by done.
    destruct (existsb (PyDict.key_eqb x) l1) eqn:E; [| done].
    apply (existsb_sublist _ _ _ Hs) in E. by rewrite E in Hx.
  - intros [_ Hd]%andb_true_iff. by apply IH.
Qed.

Lemma collect_rows_spec w rows w' :
  collect_rows fromisoformat isoformat cfg w = (Ret rows, w') ->
  distinct_keys (map row_vid rows) = true /\ Forall (row_ok cfg) rows.
Proof.
  unfold collect_rows. intros H.
  apply bind_ret_inv in H as (channels & w1 & _ & H).
  apply bind_ret_inv in H as (collected & w2 & _ & H).
  apply bind_ret_inv in H as (collected' & w3 & _ & H).
  apply bind_ret_inv in H as (details & w4 & Hdet & H).
  apply bind_ret_inv in H as (chans & w5 & _ & H).
  apply bind_ret_inv in H as (subs & w6 & _ & H).
  apply lift_ret_inv in H as [H _].
  apply fetch_video_details_inv in Hdet as [Hd _].
  apply rows_of_spec in H as (ext & -> & Hok & Hsub).
  split; [| done]. by apply (distinct_keys_sublist _ _ Hsub).
Qed.

(** X17: when a run completes, the published table has at most one row per
    video identifier, and every row shows the duration text of its
    duration, the watch URL of its identifier, a views-per-subscriber
    ratio exactly when the subscriber count is positive; unless filters
    are ignored, its duration passes the form-factor filter and its
    views per hour, before rounding, is at least the configured minimum. *)
Theorem X17_run_rows (w : world) :
  fst (run fromisoformat isoformat cfg w) = Ret tt ->
  let rows := results_df (snd (run fromisoformat isoformat cfg w)) in
  distinct_keys (map row_vid rows) = true /\ Forall (row_ok cfg) rows.
Proof.
  unfold run.
  destruct (negb (PyStr.nonempty (api_key cfg))); [done |].
  destruct (_ && _); [done |].
  unfold bind.
  destruct (collect_rows fromisoformat isoformat cfg w) as [[rows| |] w1] eqn:Hc;
    [| done | done].
  intros _. cbn. by apply (collect_rows_spec w rows w1).
Qed.

End RowProps.

Lemma X17_run_rows_witness :
  let rows := results_df
                (snd (run epoch_only (fun _ => "2024-01-01T00:00:00") scenario_config
                          (initial_world scenario_script 7200))) in
  distinct_keys (map row_vid rows) = true /\ Forall (row_ok scenario_config) rows.
Proof.
  apply (X17_run_rows epoch_only (fun _ => "2024-01-01T00:00:00") scenario_config
           (initial_world scenario_script 7200)).
  by vm_compute.
Defined.

(** ** Quota header *)

(** X19: whatever the recorded usage, the quota left is never negative and
    the progress never exceeds 1; for a usage that is not negative the
    progress is not negative either; nothing is left exactly when the
    progress bar is full; and up to the daily quota, usage and rest add up
    to it. *)
Theorem X19_quota_header (used : Z) :
  0 <= quota_left used
  /\ (quota_progress used <= 1)%Q
  /\ (0 <= used -> (0 <= quota_progress used)%Q)
  /\ (quota_left used = 0 <-> (quota_progress used == 1)%Q)
  /\ (0 <= used <= DEFAULT_DAILY_QUOTA -> quota_left used + used = DEFAULT_DAILY_QUOTA).
Proof.
  unfold quota_left, quota_progress, py_min, DEFAULT_DAILY_QUOTA, Qlt_bool.
  assert (inject_Z used / inject_Z 10000 == inject_Z used * (1 # 10000))%Q as E
    by reflexivity.
  assert (forall k : Z, (inject_Z used <= inject_Z k)%Q <-> used <= k) as Hle
    by (intros k; by rewrite <- Zle_Qle).
  assert (forall k : Z, (inject_Z k <= inject_Z used)%Q <-> k <= used) as Hge
    by (intros k; by rewrite <- Zle_Qle).
  pose proof (Hle 10000) as H1. pose proof (Hge 10000) as H2. pose proof (Hge 0) as H3.
  change (inject_Z 10000) with (10000 # 1)%Q in H1, H2.
  change (inject_Z 0) with 0%Q in H3.
  destruct (Qle_bool (inject_Z used / inject_Z 10000) 1) eqn:H; cbn [negb].
  - apply Qle_bool_iff in H. rewrite E in *.
    assert (used <= 10000) as Hu by (apply H1; lra).
    split; [lia |]. split; [done |]. split; [intros ?%H3; lra |].
    split; [| lia]. split.
    + intros Hl. assert (10000 <= used) as Hu'%H2 by lia. lra.
    + intros Hp. assert (10000 <= used) by (apply H2; lra). lia.
  - assert (~ (inject_Z used / inject_Z 10000 <= 1)%Q) as Hn.
    { intros Hq%Qle_bool_iff. congruence. }
    rewrite E in Hn.
    assert (10000 < used) as Hu.
    { apply Z.nle_gt. intros Hq%H1. apply Hn. lra. }
    split; [lia |]. split; [apply Qle_refl |]. split; [done |].
    split; [| lia]. split; [reflexivity | lia].
Qed.

(** ** Quota estimator *)

Lemma ceil50_ceil_div (x : Z) : ceil50 x = ceil_div x 50.
Proof.
  unfold ceil50, ceil_div, Qceiling, Qfloor, Qdiv, Qmult, Qinv, Qopp, inject_Z.
  cbn [Qnum Qden]. rewrite Z.mul_1_r. change (Z.pos (1 * 50)) with 50.
  pose proof (Z.div_mod (- x) 50 ltac:(done)).
  pose proof (Z.mod_pos_bound (- x) 50 ltac:(done)).
  pose proof (Z.div_mod (x + 50 - 1) 50 ltac:(done)).
  pose proof (Z.mod_pos_bound (x + 50 - 1) 50 ltac:(done)).
  lia.
Qed.

Lemma ceil_div_mono (a b n : Z) : 0 < n -> a <= b -> ceil_div a n <= ceil_div b n.
Proof. intros Hn Hab. unfold ceil_div. apply Z.div_le_mono; lia. Qed.

(** X20: with at least one result per channel and no negative count per
    keyword, the lower bound of the estimate does not exceed its upper
    bound, and the estimated number of "videos" calls is the number of
    batches the detail step makes for that many identifiers. *)
Theorem X20_quota_estimate (cfg : config) :
  1 <= per_channel_max cfg ->
  0 <= per_keyword_max cfg ->
  let e := quota_estimate cfg in
  total_units_min e <= total_units_max e
  /\ chan_calls_min e <= chan_calls_max e
  /\ search_units e = 100 * search_calls e
  /\ (forall ids : list json,
        Z.of_nat (length ids) = est_videos e ->
        videos_calls e = Z.of_nat (length (batched ids 50))).
Proof.
  intros Hc Hk e. subst e. unfold quota_estimate. cbn.
  set (n_ch := Z.of_nat (length (if uses_channels (mode cfg) then _ else _))).
  set (n_kw := Z.of_nat (length (if uses_keywords (mode cfg) then _ else _))).
  set (est := n_ch * per_channel_max cfg + n_kw * per_keyword_max cfg).
  assert (0 <= n_ch /\ 0 <= n_kw) as [Hn1 Hn2] by (unfold n_ch, n_kw; lia).
  assert (n_ch <= est) as Hest by (unfold est; nia).
  assert ((if est =? 0 then 0 else ceil50 n_ch)
          <= (if est =? 0 then 0 else ceil50 est)) as Hmin.
  { destruct (est =? 0); [done |]. rewrite !ceil50_ceil_div.
    by apply ceil_div_mono. }
  split; [lia |]. split; [done |]. split; [lia |].
  intros ids Hids.
  destruct (batched_spec ids 50 ltac:(done)) as (_ & _ & ->). rewrite Hids.
  destruct (est =? 0) eqn:E.
  - apply Z.eqb_eq in E. rewrite E. by rewrite ceil_div_zero.
  - rewrite ceil50_ceil_div. lia.
Qed.

Lemma X20_quota_estimate_witness :
  let e := quota_estimate scenario_config in
  total_units_min e <= total_units_max e
  /\ chan_calls_min e <= chan_calls_max e
  /\ search_units e = 100 * search_calls e
  /\ (forall ids : list json,
        Z.of_nat (length ids) = est_videos e ->
        videos_calls e = Z.of_nat (length (batched ids 50))).
Proof. apply (X20_quota_estimate scenario_config); done. Defined.

(** ** [batched]: full chunks *)

Lemma sizes_from_full (n : Z) (todo : nat) :
  forall cur pre last,
    Z.of_nat cur < n ->
    sizes_from n todo cur = pre ++ [last] ->
    Forall (fun s => Z.of_nat s = n) pre.
Proof.
  induction todo as [|todo IH]; intros cur pre last Hcur.
  - cbn [sizes_from]. destruct cur; [by destruct pre |].
    destruct pre as [|? [|]]; [constructor | done | done].
  - cbn [sizes_from]. destruct (Z.of_nat (S cur) =? n) eqn:E.
    + apply Z.eqb_eq in E. destruct pre as [|p pre].
      * constructor.
      * intros [= <- H]. constructor; [done |]. apply (IH O pre last); [lia | done].
    + apply Z.eqb_neq in E. apply IH. lia.
Qed.

Lemma batched_from_never {A} (n : Z) (xs : list A) :
  n <= 0 ->
  forall batch, batch ++ xs <> [] -> batched_from n xs batch = [batch ++ xs].
Proof.
  intros Hn. induction xs as [|x xs IH]; intros batch Hne.
  - rewrite app_nil_r in *. cbn. by destruct batch.
  - cbn [batched_from].
    destruct (Z.of_nat (length (batch ++ [x])) =? n) eqn:E.
    + apply Z.eqb_eq in E. rewrite length_app in E. simpl in E. lia.
    + rewrite IH; rewrite <- app_assoc; [done |]. by destruct batch.
Qed.

(** X22: for a chunk size of at least 1 every chunk but the last holds
    exactly [n] elements, so only the last chunk can be short; for a chunk
    size of 0 or less the length test never fires and a non-empty list
    comes back as one single chunk. *)
Theorem X22_batched_full {A} (xs : list A) (n : Z) :
  (0 < n ->
   forall pre last, batched xs n = pre ++ [last] ->
                    Forall (fun b => Z.of_nat (length b) = n) pre)
  /\ (n <= 0 -> xs <> [] -> batched xs n = [xs]).
Proof.
  split.
  - intros Hn pre last H.
    assert (map length (batched xs n) = map length pre ++ [length last]) as Hs
      by (by rewrite H, map_app).
    unfold batched in Hs. rewrite batched_from_sizes in Hs.
    apply sizes_from_full in Hs; [| simpl; lia].
    by apply Forall_map in Hs.
  - intros Hn Hne. unfold batched. by rewrite batched_from_never.
Qed.

(** ** Metric calculator: absent fields *)

Section MetricProps.

Variable fromisoformat : string -> res Q.

(** X23: a video record that carries a snippet with a readable
    publication time, but neither [statistics] nor [contentDetails], is
    not an error: it counts 0 views, 0 views per hour and a duration of 0
    seconds. *)
Theorem X23_compute_metrics_defaults (kvs sn : list (string * json)) (p : string)
    (t now : Q) :
  Py.assoc "snippet" kvs = Some (JObj sn) ->
  Py.assoc "publishedAt" sn = Some (JStr p) ->
  fromisoformat (replace_Z p) = Ret t ->
  Py.assoc "statistics" kvs = None ->
  Py.assoc "contentDetails" kvs = None ->
  exists vph,
    compute_metrics fromisoformat (JObj kvs) now
    = Ret {| publishedAt := t; views := 0; viewsPerHour := vph; durationSec := 0 |}
    /\ (vph == 0)%Q.
Proof.
  intros Hs Hp Ht Hst Hc. unfold compute_metrics.
  cbn [Py.item Py.get res_bind]. rewrite Hs, Hst, Hc. cbn [default res_bind Py.item].
  rewrite Hp. cbn [res_bind]. rewrite Ht. cbn [res_bind Py.get Py.assoc default].
  cbn [PyInt.of_json res_bind].
  rewrite views_per_hour_defined by apply hours_since_pos.
  cbn [res_bind]. eexists. split; [reflexivity |].
  unfold Qdiv. apply Qmult_0_l.
Qed.

End MetricProps.

Lemma X23_compute_metrics_defaults_witness :
  exists vph,
    compute_metrics epoch_only
      (JObj [("snippet", JObj [("publishedAt", JStr "1970-01-01T00:00:00Z")])]) 7200
    = Ret {| publishedAt := 0; views := 0; viewsPerHour := vph; durationSec := 0 |}
    /\ (vph == 0)%Q.
Proof.
  by apply (X23_compute_metrics_defaults epoch_only
              [("snippet", JObj [("publishedAt", JStr "1970-01-01T00:00:00Z")])]
              [("publishedAt", JStr "1970-01-01T00:00:00Z")]
              "1970-01-01T00:00:00Z" 0 7200).
Defined.

(** ** Subtitle time stamps *)

Lemma py_int_of_Q_floor (q : Q) : (0 <= q)%Q -> py_int_of_Q q = Qfloor q.
Proof.
  destruct q as [n d]. unfold Qle, py_int_of_Q, Qfloor. cbn [Qnum Qden].
  intros H. apply Z.quot_div_nonneg; lia.
Qed.

Lemma round_half_even_near (x : Q) :
  (x - (1 # 2) <= inject_Z (round_half_even x))%Q
  /\ (inject_Z (round_half_even x) <= x + (1 # 2))%Q.
Proof.
  unfold round_half_even.
  pose proof (Qfloor_le x) as Hlo. pose proof (Qlt_floor x) as Hhi.
  rewrite inject_Z_plus in Hhi. change (inject_Z 1) with 1%Q in Hhi.
  destruct (Qlt_bool (x - inject_Z (Qfloor x)) (1 # 2)) eqn:E1.
  { apply Qlt_bool_iff in E1. split; lra. }
  assert (~ (x - inject_Z (Qfloor x) < 1 # 2)%Q) as N1.
  { intros ?%Qlt_bool_iff. congruence. }
  destruct (Qlt_bool (1 # 2) (x - inject_Z (Qfloor x))) eqn:E2.
  { apply Qlt_bool_iff in E2. rewrite inject_Z_plus.
    change (inject_Z 1) with 1%Q. split; lra. }
  assert (~ (1 # 2 < x - inject_Z (Qfloor x))%Q) as N2.
  { intros ?%Qlt_bool_iff. congruence. }
  destruct (Z.even (Qfloor x)).
  - split; lra.
  - rewrite inject_Z_plus. change (inject_Z 1) with 1%Q. split; lra.
Qed.

(** X21: for a start time that is not negative the fields of a subtitle
    time stamp are in range (minutes and seconds below 60, milliseconds
    from 0 to 1000), the hours, minutes and seconds are those of the whole
    seconds of the time, and the stamp is within half a millisecond of it.
    The millisecond field reaches 1000 when the fraction rounds up to a
    whole second: the seconds field is not carried. *)
Theorem X21_srt_time_fields (seconds : Q) :
  (0 <= seconds)%Q ->
  match srt_fields seconds with
  | (h, m, s, ms) =>
      0 <= h /\ 0 <= m < 60 /\ 0 <= s < 60 /\ 0 <= ms <= 1000
      /\ (inject_Z (3600 * h + 60 * m + s) <= seconds)%Q
      /\ (seconds < inject_Z (3600 * h + 60 * m + s) + 1)%Q
      /\ (seconds * 1000 - (1 # 2)
          <= inject_Z ((3600 * h + 60 * m + s) * 1000 + ms))%Q
      /\ (inject_Z ((3600 * h + 60 * m + s) * 1000 + ms)
          <= seconds * 1000 + (1 # 2))%Q
  end.
Proof.
  intros Hs. unfold srt_fields. rewrite py_int_of_Q_floor by done.
  set (total := Qfloor seconds).
  pose proof (Qfloor_le seconds) as Hlo. pose proof (Qlt_floor seconds) as Hhi.
  fold total in Hlo, Hhi.
  rewrite inject_Z_plus in Hhi. change (inject_Z 1) with 1%Q in Hhi.
  assert (0 <= total) as Ht.
  { assert (-1 < total); [| lia]. rewrite Zlt_Qlt.
    change (inject_Z (-1)) with (-1 # 1)%Q. lra. }
  destruct (round_half_even_near ((seconds - inject_Z total) * 1000)) as [Rlo Rhi].
  set (ms := round_half_even ((seconds - inject_Z total) * 1000)) in *.
  assert (0 <= ms <= 1000) as Hms.
  { assert (-1 < ms < 1001); [| lia]. split; rewrite Zlt_Qlt.
    - change (inject_Z (-1)) with (-1 # 1)%Q. lra.
    - change (inject_Z 1001) with (1001 # 1)%Q. lra. }
  assert (3600 * (total / 3600) + 60 * (total mod 3600 / 60) + total mod 60 = total)
    as Hsum.
  { pose proof (Z.div_mod total 3600 ltac:(done)).
    pose proof (Z.div_mod (total mod 3600) 60 ltac:(done)).
    rewrite <- (Z.mod_mod_divide total 3600 60) at 1 by (by exists 60). lia. }
  rewrite Hsum.
  pose proof (Z.mod_pos_bound total 3600 ltac:(done)).
  pose proof (Z.mod_pos_bound total 60 ltac:(done)).
  split; [apply Z.div_pos; lia |].
  split; [split; [apply Z.div_pos; lia | apply Z.div_lt_upper_bound; lia] |].
  split; [done |]. split; [done |]. split; [done |]. split; [done |].
  rewrite inject_Z_plus, inject_Z_mult. change (inject_Z 1000) with (1000 # 1)%Q.
  split; lra.
Qed.

Lemma X21_srt_time_fields_witness :
  match srt_fields (3723456 # 1000) with
  | (h, m, s, ms) =>
      0 <= h /\ 0 <= m < 60 /\ 0 <= s < 60 /\ 0 <= ms <= 1000
      /\ (inject_Z (3600 * h + 60 * m + s) <= 3723456 # 1000)%Q
      /\ ((3723456 # 1000) < inject_Z (3600 * h + 60 * m + s) + 1)%Q
      /\ ((3723456 # 1000) * 1000 - (1 # 2)
          <= inject_Z ((3600 * h + 60 * m + s) * 1000 + ms))%Q
      /\ (inject_Z ((3600 * h + 60 * m + s) * 1000 + ms)
          <= (3723456 # 1000) * 1000 + (1 # 2))%Q
  end.
Proof. by apply (X21_srt_time_fields (3723456 # 1000)). Defined.

(** ** Computations that return *)

Section ReturnFrame.

Variable R : world -> world -> Prop.
Hypothesis R_refl : forall w, R w w.
Hypothesis R_trans : forall a b c, R a b -> R b c -> R a c.

Lemma returns_ret {A} (a : A) : returns_in R (ret a).
Proof. intros w a' w' [= _ <-]. apply R_refl. Qed.

Lemma returns_lift {A} (r : res A) : returns_in R (lift r).
Proof. intros w a w' [_ ->]%lift_ret_inv. apply R_refl. Qed.

Lemma returns_bind {A B} (m : M A) (k : A -> M B) :
  returns_in R m -> (forall a, returns_in R (k a)) -> returns_in R (bind m k).
Proof.
  intros Hm Hk w b w' (a & w1 & H1 & H2)%bind_ret_inv.
  eapply R_trans; [by eapply Hm | by eapply Hk].
Qed.

Lemma returns_modify (f : world -> world) :
  (forall w, R w (f w)) -> returns_in R (modify f).
Proof. intros Hf w a w' [= _ <-]. apply Hf. Qed.

Hypothesis R_yt_get : forall e ps key wt mx, returns_in R (yt_get e ps key wt mx).
Hypothesis R_sleep : forall d w, R w (sleep d w).

Lemma returns_walk_loop key wt mx :
  forall fuel ps tok ids, returns_in R (walk_loop fuel key wt mx ps tok ids).
Proof.
  induction fuel as [|fuel IH]; intros ps tok ids; [by intros w a w' |].
  cbn [walk_loop].
  apply returns_bind; [apply R_yt_get | intros data].
  apply returns_bind; [apply returns_lift | intros items].
  apply returns_bind; [apply returns_lift | intros [flag out]].
  cbn [fst snd]. destruct flag; [apply returns_ret |].
  apply returns_bind; [apply returns_lift | intros np].
  destruct (Py.truthy np); [apply IH | apply returns_ret].
Qed.

Lemma returns_fetch_videos key q ch reg lang pa mx order wt :
  returns_in R (fetch_videos_by_search key q ch reg lang pa mx order wt).
Proof. intros w a w'. unfold fetch_videos_by_search. apply returns_walk_loop. Qed.

Lemma returns_details_loop key wt batches :
  forall details, returns_in R (details_loop key wt batches details).
Proof.
  induction batches as [|b rest IH]; intros details; [apply returns_ret |].
  cbn [details_loop].
  apply returns_bind; [apply returns_lift | intros ids].
  apply returns_bind; [apply R_yt_get | intros data].
  apply returns_bind; [apply returns_lift | intros items].
  apply returns_bind; [apply returns_lift | intros d]. apply IH.
Qed.

Lemma returns_subs_loop key wt batches :
  forall subs, returns_in R (subs_loop key wt batches subs).
Proof.
  induction batches as [|b rest IH]; intros subs; [apply returns_ret |].
  cbn [subs_loop].
  apply returns_bind; [apply returns_lift | intros ids].
  apply returns_bind; [apply R_yt_get | intros data].
  apply returns_bind; [apply returns_lift | intros items].
  apply returns_bind; [apply returns_lift | intros d]. apply IH.
Qed.

Section RunReturns.

Variable fromisoformat : string -> res Q.
Variable isoformat : Q -> string.
Variable cfg : config.

Lemma returns_resolve lst :
  forall out, returns_in R (resolve_channel_ids_from cfg lst out).
Proof.
  induction lst as [|token rest IH]; intros out; [apply returns_ret |].
  cbn [resolve_channel_ids_from].
  destruct (PyStr.startswith token "@"); [| apply IH].
  apply returns_bind; [apply R_yt_get | intros data].
  apply returns_bind; [apply returns_lift | intros items].
  apply returns_bind; [apply returns_lift | intros ch]. apply IH.
Qed.

Lemma returns_channel_fan pa region chs :
  forall collected, returns_in R (channel_fan cfg pa region chs collected).
Proof.
  induction chs as [|ch rest IH]; intros collected; [apply returns_ret |].
  cbn [channel_fan].
  apply returns_bind; [apply returns_fetch_videos | intros ids].
  apply returns_bind; [apply returns_lift | intros c].
  apply returns_bind; [by apply returns_modify | intros _]. apply IH.
Qed.

Lemma returns_keyword_fan pa region kws :
  forall collected, returns_in R (keyword_fan cfg pa region kws collected).
Proof.
  induction kws as [|kw rest IH]; intros collected; [apply returns_ret |].
  cbn [keyword_fan]. destruct (negb (PyStr.nonempty kw)); [apply IH |].
  apply returns_bind; [apply returns_fetch_videos | intros ids].
  apply returns_bind; [apply returns_lift | intros c].
  apply returns_bind; [by apply returns_modify | intros _]. apply IH.
Qed.

Lemma returns_over_regions inner regions :
  (forall region c, returns_in R (inner region c)) ->
  forall collected, returns_in R (over_regions inner regions collected).
Proof.
  intros Hin. induction regions as [|r rest IH]; intros collected;
    [apply returns_ret |].
  cbn [over_regions]. apply returns_bind; [apply Hin | apply IH].
Qed.

Lemma returns_collect_rows :
  returns_in R (collect_rows fromisoformat isoformat cfg).
Proof.
  assert (forall pa, returns_in R
    (channels <- (if uses_channels (mode cfg)
                  then resolve_channel_ids cfg (input_channels cfg) else ret []) ;;
     collected <- (if uses_channels (mode cfg)
                   then over_regions (fun region => channel_fan cfg pa region channels)
                          (target_regions cfg) []
                   else ret []) ;;
     collected <- (if uses_keywords (mode cfg)
                   then over_regions
                          (fun region => keyword_fan cfg pa region
                                           (effective_keywords cfg))
                          (target_regions cfg) collected
                   else ret collected) ;;
     details <- fetch_video_details (api_key cfg) collected (wait_minutes cfg) ;;
     channel_ids <- lift (channel_ids_of details []) ;;
     subs_map <- (match channel_ids with
                  | [] => ret []
                  | _ => fetch_channel_subs (api_key cfg) channel_ids (wait_minutes cfg)
                  end) ;;
     fun w => lift (rows_of fromisoformat cfg (clock w) subs_map
                            (map normalize_text (effective_keywords cfg))
                            details []) w)) as Hbody;
    [| intros w0 rows w'; unfold collect_rows; apply Hbody].
  intros pa. apply returns_bind.
  { destruct (uses_channels (mode cfg)); [apply returns_resolve | apply returns_ret]. }
  intros channels. apply returns_bind.
  { destruct (uses_channels (mode cfg)); [| apply returns_ret].
    apply returns_over_regions. intros. apply returns_channel_fan. }
  intros collected. apply returns_bind.
  { destruct (uses_keywords (mode cfg)); [| apply returns_ret].
    apply returns_over_regions. intros. apply returns_keyword_fan. }
  intros collected'. apply returns_bind.
  { unfold fetch_video_details. destruct collected'; [apply returns_ret |].
    apply returns_details_loop. }
  intros details. apply returns_bind; [apply returns_lift | intros chans].
  apply returns_bind.
  { destruct chans; [apply returns_ret |]. unfold fetch_channel_subs.
    apply returns_subs_loop. }
  intros subs w a w' [_ ->]%lift_ret_inv. apply R_refl.
Qed.

Lemma returns_run :
  (forall rows w, R w (set_results rows [] w)) ->
  returns_in R (run fromisoformat isoformat cfg).
Proof.
  intros Hset. unfold run.
  destruct (negb (PyStr.nonempty (api_key cfg))); [by intros w a w' |].
  destruct (_ && _); [by intros w a w' |].
  apply returns_bind; [apply returns_collect_rows | intros rows].
  by apply returns_modify.
Qed.

End RunReturns.

End ReturnFrame.

(** ** What a run is charged *)

Lemma calls_cost_app (a b : list request) :
  calls_cost (a ++ b) = calls_cost a + calls_cost b.
Proof. induction a as [|x a IH]; simpl; [done |]. rewrite IH. lia. Qed.

Lemma calls_cost_nonneg (l : list request) : 0 <= calls_cost l.
Proof.
  induction l as [|x l IH]; simpl; [done |].
  pose proof (quota_units_nonneg (endpoint x)). lia.
Qed.

Lemma charged_at_most_refl w : charged_at_most w w.
Proof. exists []. rewrite app_nil_r. simpl. split; [done | lia]. Qed.

Lemma charged_at_most_trans a b c :
  charged_at_most a b -> charged_at_most b c -> charged_at_most a c.
Proof.
  intros (n1 & E1 & H1) (n2 & E2 & H2). exists (n1 ++ n2).
  rewrite E2, E1, app_assoc, calls_cost_app. split; [done | lia].
Qed.

Lemma charged_exactly_refl w : charged_exactly w w.
Proof. exists []. rewrite app_nil_r. simpl. split; [done | lia]. Qed.

Lemma charged_exactly_trans a b c :
  charged_exactly a b -> charged_exactly b c -> charged_exactly a c.
Proof.
  intros (n1 & E1 & H1) (n2 & E2 & H2). exists (n1 ++ n2).
  rewrite E2, E1, app_assoc, calls_cost_app. split; [done | lia].
Qed.

Lemma yt_get_units e ps key wt mx w :
  let out := yt_get e ps key wt mx w in
  (q_units (snd out) = q_units w \/ q_units (snd out) = q_units w + _quota_units_for e)
  /\ (forall d, fst out = Ret d -> q_units (snd out) = q_units w + _quota_units_for e).
Proof.
  intros out. subst out. unfold yt_get.
  match goal with |- context [yt_get_loop ?rq wt mx ?s 0 ?w1] =>
    pose proof (yt_get_loop_charge rq wt mx s 0 w1) as H
  end.
  cbn [endpoint] in H.
  destruct H as [[(_ & Hu & _) Hr] | [[Hc _] _]].
  - split; [by left |]. intros d Hd. by destruct (Hr d).
  - split; [by right | by intros].
Qed.

Lemma yt_get_charged_at_most e ps key wt mx :
  respects charged_at_most (yt_get e ps key wt mx).
Proof.
  intros w. eexists. split; [apply yt_get_calls |].
  destruct (yt_get_units e ps key wt mx w) as [Hu _].
  pose proof (quota_units_nonneg e). simpl. lia.
Qed.

Lemma yt_get_charged_exactly e ps key wt mx :
  returns_in charged_exactly (yt_get e ps key wt mx).
Proof.
  intros w d w' H. eexists. split.
  - pose proof (yt_get_calls e ps key wt mx w) as Hc. by rewrite H in Hc.
  - destruct (yt_get_units e ps key wt mx w) as [_ Hu].
    rewrite H in Hu. cbn [fst snd] in Hu. rewrite (Hu d) by done. simpl. lia.
Qed.

(** X24: however a run ends, the usage it adds to the ledger is at most
    the cost of the gateway calls it made (100 units per "search" call, 1
    per "videos" or "channels" call); when the run completes, the usage
    added is exactly that cost: every call made was charged, once. *)
Theorem X24_run_charge fromisoformat isoformat cfg w :
  let out := run fromisoformat isoformat cfg w in
  charged_at_most w (snd out)
  /\ (fst out = Ret tt -> charged_exactly w (snd out)).
Proof.
  intros out. split.
  - subst out. revert w.
    change (respects charged_at_most (run fromisoformat isoformat cfg)).
    unfold run.
    destruct (negb (PyStr.nonempty (api_key cfg)));
      [intros w; apply charged_at_most_refl |].
    destruct (_ && _); [intros w; apply charged_at_most_refl |].
    apply respects_bind; [apply charged_at_most_trans | |].
    + apply respects_collect_rows;
        [apply charged_at_most_refl | apply charged_at_most_trans
         | apply yt_get_charged_at_most |].
      intros d w. apply (charged_at_most_refl w).
    + intros rows w. apply (charged_at_most_refl w).
  - intros Hret.
    apply (returns_run charged_exactly charged_exactly_refl charged_exactly_trans
             yt_get_charged_exactly
             (fun d w => charged_exactly_refl w)
             fromisoformat isoformat cfg
             (fun rows w => charged_exactly_refl w) w tt (snd out)).
    subst out. rewrite <- Hret. apply surjective_pairing.
Qed.
